(** * fpl-weekly: the data transformation and ranking pipeline of [build.js]

    A shallow embedding of the part of [build.js] that turns the snapshot
    fetched from the provider (players, teams, gameweeks, fixtures) into the
    result sets the page is rendered from: [getCurrentGameweek], and the
    first half of [buildHTML] (fixture grouping and the six rankings).
    The helpers of the template ([getTeamName], [getTimeUntil], the
    difficulty colours) and the script around it ([fetchJSON],
    [fetchFPLData], [main]) follow.

    JavaScript values are modelled as follows.
    - Integer fields of the payload are [Z].
    - The results of [parseFloat] are [number]s: NaN, the two infinities, or
      a finite binary64 value, kept as the rational it is.
    - Strings are byte strings, the UTF-8 encoding of the strings of the
      source.
    - [undefined] is [None].
    - Arrays are [list]s; where identity and in-place update matter (the
      last part of the file) they live in a store of arrays addressed by
      location.
    - A thrown exception is recorded by the [name] of the error object. *)

From Stdlib Require Import ZArith QArith Qabs String Ascii List Sorted Permutation Lia.
From Stdlib Require Import DecimalString.
From stdpp Require Import base list sorting.
Import ListNotations.

Close Scope Q_scope.
Open Scope Z_scope.

(** ** Numbers *)

Inductive number : Type :=
| NaN
| NegInfinity
| Finite (q : Q)
| PosInfinity.

Definition num_of_Z (z : Z) : number := Finite (inject_Z z).

Definition Qgtb (x y : Q) : bool :=
  match Qcompare x y with Gt => true | _ => false end.

(** [x > y] on numbers: false as soon as one side is NaN. *)
Definition num_gt (x y : number) : bool :=
  match x, y with
  | NaN, _ | _, NaN => false
  | NegInfinity, _ => false
  | _, PosInfinity => false
  | Finite a, Finite b => Qgtb a b
  | Finite _, NegInfinity => true
  | PosInfinity, _ => true
  end.

(** [x - y] on numbers. *)
Definition num_sub (x y : number) : number :=
  match x, y with
  | NaN, _ | _, NaN => NaN
  | PosInfinity, PosInfinity => NaN
  | NegInfinity, NegInfinity => NaN
  | PosInfinity, _ => PosInfinity
  | NegInfinity, _ => NegInfinity
  | Finite _, PosInfinity => NegInfinity
  | Finite _, NegInfinity => PosInfinity
  | Finite a, Finite b => Finite (a - b)%Q
  end.

(** ** [parseFloat]

    Leading white space is skipped, then the longest prefix that is a
    [StrDecimalLiteral] is read: an optional sign, then [Infinity] or
    digits with an optional fraction and an optional exponent.  Without
    such a prefix the result is NaN.  The decimal read is rounded to the
    nearest binary64 value, ties to even. *)

(** The white space and line terminator characters below U+0080. *)
Definition is_white_space (c : ascii) : bool :=
  let n := nat_of_ascii c in
  ((9 <=? n)%nat && (n <=? 13)%nat) || (n =? 32)%nat.

(** The third byte of U+2000 to U+200A, U+2028, U+2029 and U+202F, whose
    first two bytes are 226 and 128. *)
Definition is_space_E2_80 (c : ascii) : bool :=
  let n := nat_of_ascii c in
  ((128 <=? n)%nat && (n <=? 138)%nat)
  || (n =? 168)%nat || (n =? 169)%nat || (n =? 175)%nat.

Definition is_digit (c : ascii) : bool :=
  let n := nat_of_ascii c in (48 <=? n)%nat && (n <=? 57)%nat.

Definition digit_value (c : ascii) : Z := Z.of_nat (nat_of_ascii c) - 48.

(** Besides the characters of [is_white_space], the white space of the
    language is U+00A0, U+1680, U+2000 to U+200A, U+2028, U+2029, U+202F,
    U+205F, U+3000 and U+FEFF, matched here by their encodings. *)
Fixpoint trimStart (s : string) : string :=
  match s with
  | String c r =>
      if is_white_space c then trimStart r
      else
        match c, r with
        | "194"%char, String "160" r' => trimStart r'
        | "225"%char, String "154" (String "128" r') => trimStart r'
        | "226"%char, String "128" (String c3 r') =>
            if is_space_E2_80 c3 then trimStart r' else s
        | "226"%char, String "129" (String "159" r') => trimStart r'
        | "227"%char, String "128" (String "128" r') => trimStart r'
        | "239"%char, String "187" (String "191" r') => trimStart r'
        | _, _ => s
        end
  | EmptyString => s
  end.

(** The longest run of decimal digits at the head of [s], and what follows. *)
Fixpoint take_digits (s : string) : list Z * string :=
  match s with
  | String c r =>
      if is_digit c
      then let '(ds, rest) := take_digits r in (digit_value c :: ds, rest)
      else ([], s)
  | EmptyString => ([], s)
  end.

Definition digits_value (ds : list Z) : Z :=
  fold_left (fun acc d => 10 * acc + d) ds 0.

Definition take_sign (s : string) : bool * string :=
  match s with
  | String "-" r => (true, r)
  | String "+" r => (false, r)
  | _ => (false, s)
  end.

(** The value of an [ExponentPart] at the head of [s], or 0 when there is
    none (an [e] that no digit follows is not part of the literal). *)
Definition exponent_part (s : string) : Z :=
  match s with
  | String c r =>
      if (Ascii.eqb c "e" || Ascii.eqb c "E")%bool
      then let '(neg, r') := take_sign r in
           match take_digits r' with
           | ([], _) => 0
           | (ds, _) => if neg then - digits_value ds else digits_value ds
           end
      else 0
  | EmptyString => 0
  end.

(** [floor (log2 (n / d))] for positive [n] and [d]. *)
Definition floor_log2 (n d : Z) : Z :=
  let k := Z.log2 n - Z.log2 d in
  let at_least_2k :=
    if 0 <=? k then d * 2 ^ k <=? n else d <=? n * 2 ^ (- k) in
  if at_least_2k then k else k - 1.

(** [n / d] rounded to the nearest integer, ties to the even one, for
    [0 <= n] and [0 < d]. *)
Definition round_half_even (n d : Z) : Z :=
  let q := n / d in
  match 2 * (n mod d) ?= d with
  | Lt => q
  | Gt => q + 1
  | Eq => if Z.even q then q else q + 1
  end.

(** The Number value for the rational [x]: the binary64 value nearest to
    it, ties to even.  A binary64 magnitude is [m * 2 ^ e] with
    [m < 2 ^ 53] and [-1074 <= e <= 971]; a rounding that reaches
    [2 ^ 1024] gives an infinity. *)
Definition binary64 (x : Q) : number :=
  let n := Qnum x in
  let d := Zpos (Qden x) in
  if n =? 0 then Finite 0
  else
    let a := Z.abs n in
    let e := Z.max (floor_log2 a d - 52) (-1074) in
    let m := if 0 <=? e then round_half_even a (d * 2 ^ e)
             else round_half_even (a * 2 ^ (- e)) d in
    if (0 <=? e) && (2 ^ 1024 <=? m * 2 ^ e)
    then (if n <? 0 then NegInfinity else PosInfinity)
    else
      let magnitude :=
        if 0 <=? e then inject_Z (m * 2 ^ e)
        else Qmake m (Z.to_pos (2 ^ (- e))) in
      Finite (if n <? 0 then (- magnitude)%Q else magnitude).

Definition parseFloat (input : string) : number :=
  let '(neg, s1) := take_sign (trimStart input) in
  if String.prefix "Infinity" s1
  then (if neg then NegInfinity else PosInfinity)
  else
    let '(ip, s2) := take_digits s1 in
    let '(fp, s3) := match s2 with
                     | String "." r => take_digits r
                     | _ => ([], s2)
                     end in
    match ip, fp with
    | [], [] => NaN
    | _, _ =>
        let mantissa := inject_Z (digits_value (ip ++ fp)) in
        let scale := exponent_part s3 - Z.of_nat (length fp) in
        let magnitude := (mantissa * Qpower 10 scale)%Q in
        binary64 (if neg then (- magnitude)%Q else magnitude)
    end.

(** ** The snapshot *)

Module Team.
Record t : Type := mk { id : Z; name : string; short_name : string }.
End Team.

Module Event.
Record t : Type := mk {
  id : Z;
  name : string;
  deadline_time : Z;
  is_next : bool;
  is_current : bool;
  finished : bool
}.
End Event.

Module Fixture.
(** [event] is [None] for a fixture not yet scheduled into a gameweek
    ([null] in the payload).  [kickoff_time] is the time value, in
    milliseconds since the epoch, of [new Date(f.kickoff_time)]. *)
Record t : Type := mk {
  id : Z;
  event : option Z;
  team_h : Z;
  team_a : Z;
  kickoff_time : Z;
  team_h_difficulty : Z;
  team_a_difficulty : Z
}.
End Fixture.

Module Element.
Record t : Type := mk {
  id : Z;
  web_name : string;
  team : Z;
  element_type : Z;
  status : string;
  news : string;
  selected_by_percent : string;
  form : string;
  transfers_in_event : Z;
  transfers_out_event : Z;
  cost_change_event : Z
}.
End Element.

(** ** [getCurrentGameweek] *)

(** [a || b] where [a] is an object or [undefined]. *)
Definition or_else {A : Type} (a b : option A) : option A :=
  match a with Some _ => a | None => b end.

(** [events[events.length - 1]]: [undefined] on the empty array. *)
Definition last_element {A : Type} (l : list A) : option A :=
  nth_error l (Nat.pred (length l)).

Definition getCurrentGameweek (events : list Event.t) : option Event.t :=
  match List.find Event.is_next events with
  | Some gw => Some gw
  | None =>
      match List.find Event.is_current events with
      | Some gw => Some gw
      | None =>
          or_else (List.find (fun e => negb (Event.finished e)) events)
                  (last_element events)
      end
  end.


(** ** [Array.prototype.sort], [filter], [slice]

    [sort] takes the comparator the source passes.  As in [SortCompare], a
    comparator result of NaN counts as [+0], so [x] goes after [y] exactly
    when [comparefn x y > 0].  The language requires a stable sort; for a
    consistent comparator that fixes the result, which is computed here by
    insertion from the right. *)

Section ArraySort.
Context {A : Type}.
Variable comparefn : A -> A -> number.

Definition sorts_after (x y : A) : bool :=
  num_gt (comparefn x y) (num_of_Z 0).

Fixpoint insert_sorted (x : A) (l : list A) : list A :=
  match l with
  | [] => [x]
  | y :: r => if sorts_after x y then y :: insert_sorted x r else x :: l
  end.

Definition sort (l : list A) : list A := foldr insert_sorted [] l.
End ArraySort.

(** [l.slice(s, e)] for indices [0 <= s <= e]. *)
Definition slice {A : Type} (s e : nat) (l : list A) : list A :=
  firstn (e - s) (skipn s l).

(** ** The rankings of [buildHTML] *)

Definition by_transfers_in (a b : Element.t) : number :=
  num_of_Z (Element.transfers_in_event b - Element.transfers_in_event a).

Definition by_transfers_out (a b : Element.t) : number :=
  num_of_Z (Element.transfers_out_event b - Element.transfers_out_event a).

Definition by_form (a b : Element.t) : number :=
  num_sub (parseFloat (Element.form b)) (parseFloat (Element.form a)).

Definition by_ownership (a b : Element.t) : number :=
  num_sub (parseFloat (Element.selected_by_percent b))
          (parseFloat (Element.selected_by_percent a)).

Definition by_cost_change_desc (a b : Element.t) : number :=
  num_of_Z (Element.cost_change_event b - Element.cost_change_event a).

Definition by_cost_change_asc (a b : Element.t) : number :=
  num_of_Z (Element.cost_change_event a - Element.cost_change_event b).

Definition form_filter (p : Element.t) : bool :=
  num_gt (parseFloat (Element.selected_by_percent p)) (num_of_Z 2)
  && num_gt (parseFloat (Element.form p)) (num_of_Z 0).

Definition injury_filter (p : Element.t) : bool :=
  negb (String.eqb (Element.status p) "a")
  && num_gt (parseFloat (Element.selected_by_percent p)) (num_of_Z 3).

Definition riser_filter (p : Element.t) : bool :=
  Element.cost_change_event p >? 0.

Definition faller_filter (p : Element.t) : bool :=
  Element.cost_change_event p <? 0.

Definition topTransfersIn (players : list Element.t) : list Element.t :=
  slice 0 5 (sort by_transfers_in players).

Definition topTransfersOut (players : list Element.t) : list Element.t :=
  slice 0 5 (sort by_transfers_out players).

Definition formPlayers (players : list Element.t) : list Element.t :=
  slice 0 5 (sort by_form (List.filter form_filter players)).

Definition injuries (players : list Element.t) : list Element.t :=
  slice 0 8 (sort by_ownership (List.filter injury_filter players)).

Definition priceRisers (players : list Element.t) : list Element.t :=
  slice 0 5 (sort by_cost_change_desc (List.filter riser_filter players)).

Definition priceFallers (players : list Element.t) : list Element.t :=
  slice 0 5 (sort by_cost_change_asc (List.filter faller_filter players)).

(** The two lookup tables of [buildHTML].  Both are object literals.
    [statusEmoji[p.status]] is looked up with a string: after the five
    own properties the lookup reaches [Object.prototype], whose
    properties (functions, and the prototype object itself for
    [__proto__]) are all truthy, so that the fallback of
    [statusEmoji[p.status] || fallback] is used only when neither has the
    name.  [positionName[code]] is looked up with a number and is
    [undefined] outside the four codes. *)
Inductive emoji : Type :=
| CheckMark | WarningSign | Bandaged | RedSquare | CrossMark | QuestionMark.

(** What the lookup can give: an icon of the table, or the value that
    [Object.prototype] holds under the name. *)
Inductive status_value : Type :=
| Icon (e : emoji)
| Inherited (name : string).

Definition Object_prototype : list string :=
  ["constructor"; "__defineGetter__"; "__defineSetter__"; "hasOwnProperty";
   "__lookupGetter__"; "__lookupSetter__"; "isPrototypeOf";
   "propertyIsEnumerable"; "toString"; "valueOf"; "__proto__";
   "toLocaleString"]%string.

Definition statusEmoji (status : string) : option status_value :=
  if String.eqb status "a" then Some (Icon CheckMark)
  else if String.eqb status "d" then Some (Icon WarningSign)
  else if String.eqb status "i" then Some (Icon Bandaged)
  else if String.eqb status "s" then Some (Icon RedSquare)
  else if String.eqb status "u" then Some (Icon CrossMark)
  else if existsb (String.eqb status) Object_prototype
       then Some (Inherited status)
  else None.

Definition status_icon (p : Element.t) : status_value :=
  default (Icon QuestionMark) (statusEmoji (Element.status p)).

Definition positionName (code : Z) : option string :=
  if code =? 1 then Some "GKP"%string
  else if code =? 2 then Some "DEF"%string
  else if code =? 3 then Some "MID"%string
  else if code =? 4 then Some "FWD"%string
  else None.

(** ** Fixture grouping

    [new Date(t).toDateString()] prints the weekday, month, day of month
    and year of the local time of [t]: the text is fixed by the local day
    number, and distinct days print differently.  The property key is
    therefore represented by that day number.  [tza t] is the offset of
    the local time zone of the executing machine at instant [t], in
    milliseconds ([LocalTZA]). *)

Definition msPerDay : Z := 86400000.

Definition LocalTime (tza : Z -> Z) (t : Z) : Z := t + tza t.

Definition Day (t : Z) : Z := t / msPerDay.

Definition toDateString (tza : Z -> Z) (t : Z) : Z := Day (LocalTime tza t).

Definition date_of (tza : Z -> Z) (f : Fixture.t) : Z :=
  toDateString tza (Fixture.kickoff_time f).

(** [f.event === id]: strict equality, never true of [null]. *)
Definition in_gameweek (id : Z) (f : Fixture.t) : bool :=
  match Fixture.event f with
  | Some e => e =? id
  | None => false
  end.

(** The object [fixturesByDate]: its keys are not array indices, so its
    properties are enumerated in the order they were created.
    [push_fixture] is the body of the [forEach] callback: create the
    property with an empty array if it is missing, then push. *)
Fixpoint push_fixture (date : Z) (f : Fixture.t)
    (obj : list (Z * list Fixture.t)) : list (Z * list Fixture.t) :=
  match obj with
  | [] => [(date, [f])]
  | (d, fs) :: rest =>
      if d =? date then (d, fs ++ [f]) :: rest
      else (d, fs) :: push_fixture date f rest
  end.

Definition group_by_date (tza : Z -> Z) (gwFixtures : list Fixture.t)
    : list (Z * list Fixture.t) :=
  fold_left (fun obj f => push_fixture (date_of tza f) f obj) gwFixtures [].

Definition by_kickoff (a b : Fixture.t) : number :=
  num_of_Z (Fixture.kickoff_time a - Fixture.kickoff_time b).

Definition sort_days (obj : list (Z * list Fixture.t))
    : list (Z * list Fixture.t) :=
  map (fun '(d, dayFixtures) => (d, sort by_kickoff dayFixtures)) obj.

Definition fixturesByDate (tza : Z -> Z) (fixtures : list Fixture.t)
    (gw : Z) : list (Z * list Fixture.t) :=
  sort_days (group_by_date tza (List.filter (in_gameweek gw) fixtures)).

(** ** [buildHTML], up to the template

    The model returns the constants the template interpolates.  When
    [events] is empty [currentGW] is [undefined], and reading a property
    of it (in the [filter] callback, or at the latest [currentGW.name] in
    the template) throws a [TypeError]. *)

Inductive completion (A : Type) : Type :=
| Normal (v : A)
| Throw (name : string).
Arguments Normal {A} v.
Arguments Throw {A} name.

Record Bootstrap : Type := {
  elements : list Element.t;
  teams : list Team.t;
  events : list Event.t
}.

Record Data : Type := {
  bootstrap : Bootstrap;
  fixtures : list Fixture.t
}.

Record Views : Type := {
  v_currentGW : Event.t;
  v_fixturesByDate : list (Z * list Fixture.t);
  v_topTransfersIn : list Element.t;
  v_topTransfersOut : list Element.t;
  v_formPlayers : list Element.t;
  v_injuries : list Element.t;
  v_priceRisers : list Element.t;
  v_priceFallers : list Element.t
}.

Definition buildHTML (tza : Z -> Z) (data : Data) : completion Views :=
  let players := elements (bootstrap data) in
  match getCurrentGameweek (events (bootstrap data)) with
  | None => Throw "TypeError"
  | Some currentGW =>
      Normal {|
        v_currentGW := currentGW;
        v_fixturesByDate :=
          fixturesByDate tza (fixtures data) (Event.id currentGW);
        v_topTransfersIn := topTransfersIn players;
        v_topTransfersOut := topTransfersOut players;
        v_formPlayers := formPlayers players;
        v_injuries := injuries players;
        v_priceRisers := priceRisers players;
        v_priceFallers := priceFallers players
      |}
  end.

(** ** The same code over a store of arrays

    Arrays are objects: [sort] and [push] update their receiver in place,
    while the spread [[...a]], [filter] and [slice] allocate a fresh
    array.  A heap holds the arrays of one element type, a location being
    an index into it; the store has one heap per collection of the
    snapshot.  The objects held in the arrays are never written to by
    [buildHTML], and are kept as values. *)

Module Store.

(** A location is an index into a heap. *)
Abbreviation loc := nat.

Definition State (S X : Type) : Type := S -> X * S.

#[global] Instance State_ret {S : Type} : MRet (State S) :=
  fun X x s => (x, s).

#[global] Instance State_bind {S : Type} : MBind (State S) :=
  fun X Y f m s => let '(x, s') := m s in f x s'.

Fixpoint foldM {S A B : Type} (f : B -> A -> State S B) (l : list A)
    (b : B) : State S B :=
  match l with
  | [] => mret b
  | x :: r => b' ← f b x; foldM f r b'
  end.

Section Arrays.
Context {A : Type}.

Definition read (l : loc) (h : list (list A)) : list A :=
  default [] (h !! l).

Definition alloc (a : list A) : State (list (list A)) loc :=
  fun h => (length h, h ++ [a]).

Definition write (l : loc) (a : list A) : State (list (list A)) unit :=
  fun h => (tt, <[l := a]> h).

Definition contents (l : loc) : State (list (list A)) (list A) :=
  fun h => (read l h, h).

(** [[]] *)
Definition Array_new : State (list (list A)) loc := alloc [].

(** [[...a]] *)
Definition spread (l : loc) : State (list (list A)) loc :=
  a ← contents l; alloc a.

(** [a.filter(pred)] *)
Definition Array_filter (pred : A -> bool) (l : loc)
    : State (list (list A)) loc :=
  a ← contents l; alloc (List.filter pred a).

(** [a.slice(s, e)] *)
Definition Array_slice (s e : nat) (l : loc) : State (list (list A)) loc :=
  a ← contents l; alloc (slice s e a).

(** [a.sort(comparefn)]: sorts [a] itself and returns it. *)
Definition Array_sort (comparefn : A -> A -> number) (l : loc)
    : State (list (list A)) loc :=
  a ← contents l; _ ← write l (sort comparefn a); mret l.

(** [a.push(x)] *)
Definition Array_push (l : loc) (x : A) : State (list (list A)) unit :=
  a ← contents l; write l (a ++ [x]).
End Arrays.

Record Rankings : Type := {
  r_topTransfersIn : loc;
  r_topTransfersOut : loc;
  r_formPlayers : loc;
  r_injuries : loc;
  r_priceRisers : loc;
  r_priceFallers : loc
}.

Definition rankings (players : loc) : State (list (list Element.t)) Rankings :=
  a ← spread players;
  a ← Array_sort by_transfers_in a;
  topTransfersIn ← Array_slice 0 5 a;
  a ← spread players;
  a ← Array_sort by_transfers_out a;
  topTransfersOut ← Array_slice 0 5 a;
  a ← spread players;
  a ← Array_filter form_filter a;
  a ← Array_sort by_form a;
  formPlayers ← Array_slice 0 5 a;
  a ← Array_filter injury_filter players;
  a ← Array_sort by_ownership a;
  injuries ← Array_slice 0 8 a;
  a ← spread players;
  a ← Array_filter riser_filter a;
  a ← Array_sort by_cost_change_desc a;
  priceRisers ← Array_slice 0 5 a;
  a ← spread players;
  a ← Array_filter faller_filter a;
  a ← Array_sort by_cost_change_asc a;
  priceFallers ← Array_slice 0 5 a;
  mret {| r_topTransfersIn := topTransfersIn;
          r_topTransfersOut := topTransfersOut;
          r_formPlayers := formPlayers;
          r_injuries := injuries;
          r_priceRisers := priceRisers;
          r_priceFallers := priceFallers |}.

(** [fixturesByDate[date]], on the object given by its properties in
    creation order. *)
Definition get_property (date : Z) (obj : list (Z * loc)) : option loc :=
  snd <$> List.find (fun '(d, _) => d =? date) obj.

(** The body of the grouping [forEach]. *)
Definition group_fixture (tza : Z -> Z) (obj : list (Z * loc))
    (f : Fixture.t) : State (list (list Fixture.t)) (list (Z * loc)) :=
  let date := date_of tza f in
  match get_property date obj with
  | None =>
      l ← Array_new;
      _ ← Array_push l f;
      mret (obj ++ [(date, l)])
  | Some l =>
      _ ← Array_push l f;
      mret obj
  end.

Definition sort_day (_ : unit) (property : Z * loc)
    : State (list (list Fixture.t)) unit :=
  _ ← Array_sort by_kickoff (snd property); mret tt.

(** Lines 114 to 127.  The first [forEach] runs over [gwFixtures], which
    its callback does not touch, and so over its contents at the start. *)
Definition fixturesByDate (tza : Z -> Z) (fixtures : loc) (gw : Z)
    : State (list (list Fixture.t)) (list (Z * loc)) :=
  gwFixtures ← Array_filter (in_gameweek gw) fixtures;
  items ← contents gwFixtures;
  obj ← foldM (group_fixture tza) items [];
  _ ← foldM sort_day obj tt;
  mret obj.

Record store : Type := {
  element_arrays : list (list Element.t);
  team_arrays : list (list Team.t);
  event_arrays : list (list Event.t);
  fixture_arrays : list (list Fixture.t)
}.

Definition on_elements {X : Type} (m : State (list (list Element.t)) X)
    : State store X :=
  fun s =>
    let '(x, h) := m (element_arrays s) in
    (x, {| element_arrays := h; team_arrays := team_arrays s;
           event_arrays := event_arrays s;
           fixture_arrays := fixture_arrays s |}).

Definition on_fixtures {X : Type} (m : State (list (list Fixture.t)) X)
    : State store X :=
  fun s =>
    let '(x, h) := m (fixture_arrays s) in
    (x, {| element_arrays := element_arrays s; team_arrays := team_arrays s;
           event_arrays := event_arrays s; fixture_arrays := h |}).

Definition get_events (l : loc) : State store (list Event.t) :=
  fun s => (read l (event_arrays s), s).

(** The snapshot handed to [buildHTML], and what it computes, as
    references into the store. *)
Record data : Type := {
  ref_elements : loc;
  ref_teams : loc;
  ref_events : loc;
  ref_fixtures : loc
}.

Record views : Type := {
  ref_currentGW : Event.t;
  ref_fixturesByDate : list (Z * loc);
  ref_rankings : Rankings
}.

(** With [currentGW] undefined, the callback of the first [filter] throws
    on the first fixture, after [filter] has created its result array;
    when there is no fixture the rankings are still computed and the
    template throws. *)
Definition buildHTML (tza : Z -> Z) (d : data)
    : State store (completion views) :=
  evs ← get_events (ref_events d);
  match getCurrentGameweek evs with
  | Some currentGW =>
      byDate ← on_fixtures (fixturesByDate tza (ref_fixtures d)
                                           (Event.id currentGW));
      ranked ← on_elements (rankings (ref_elements d));
      mret (Normal {| ref_currentGW := currentGW;
                      ref_fixturesByDate := byDate;
                      ref_rankings := ranked |})
  | None =>
      fs ← on_fixtures (contents (ref_fixtures d));
      _ ← on_fixtures Array_new;
      match fs with
      | _ :: _ => mret (Throw "TypeError")
      | [] =>
          _ ← on_elements (rankings (ref_elements d));
          mret (Throw "TypeError")
      end
  end.

(** The store is unchanged wherever it was allocated. *)
Definition unchanged {A : Type} (h h' : list (list A)) : Prop :=
  forall l a, h !! l = Some a -> h' !! l = Some a.

Definition snapshot_unchanged (s s' : store) : Prop :=
  unchanged (element_arrays s) (element_arrays s')
  /\ unchanged (team_arrays s) (team_arrays s')
  /\ unchanged (event_arrays s) (event_arrays s')
  /\ unchanged (fixture_arrays s) (fixture_arrays s').

(** Reading the references back: the snapshot a store holds at [d], and
    the values a result refers to. *)
Definition deref {A : Type} (h : list (list A)) (obj : list (Z * loc))
    : list (Z * list A) :=
  map (fun property => (fst property, read (snd property) h)) obj.

Definition snapshot_at (d : data) (s : store) : Data :=
  {| bootstrap :=
       {| elements := read (ref_elements d) (element_arrays s);
          teams := read (ref_teams d) (team_arrays s);
          events := read (ref_events d) (event_arrays s) |};
     fixtures := read (ref_fixtures d) (fixture_arrays s) |}.

Definition views_at (v : views) (s : store) : Views :=
  let r := ref_rankings v in
  let h := element_arrays s in
  {| v_currentGW := ref_currentGW v;
     v_fixturesByDate := deref (fixture_arrays s) (ref_fixturesByDate v);
     v_topTransfersIn := read (r_topTransfersIn r) h;
     v_topTransfersOut := read (r_topTransfersOut r) h;
     v_formPlayers := read (r_formPlayers r) h;
     v_injuries := read (r_injuries r) h;
     v_priceRisers := read (r_priceRisers r) h;
     v_priceFallers := read (r_priceFallers r) h |}.

(** The references of [d] point to arrays of the store. *)
Definition allocated (d : data) (s : store) : Prop :=
  (ref_elements d < length (element_arrays s))%nat
  /\ (ref_teams d < length (team_arrays s))%nat
  /\ (ref_events d < length (event_arrays s))%nat
  /\ (ref_fixtures d < length (fixture_arrays s))%nat.

(** Every array of the object [obj] was allocated at or after [n], and no
    two of its properties share an array. *)
Definition fresh_object {A : Type} (n : nat) (obj : list (Z * loc))
    (h : list (list A)) : Prop :=
  Forall (fun property => (n <= snd property < length h)%nat) obj
  /\ NoDup (map snd obj).

End Store.

(** ** Vocabulary of the statements *)

(** [x >= y] between two numbers neither of which is NaN. *)
Definition num_ge (x y : number) : Prop :=
  x <> NaN /\ y <> NaN /\ num_gt y x = false.

(** [x === y] on numbers. *)
Definition num_eqb (x y : number) : bool :=
  match x, y with
  | Finite a, Finite b => Qeq_bool a b
  | PosInfinity, PosInfinity => true
  | NegInfinity, NegInfinity => true
  | _, _ => false
  end.

Definition form_value (p : Element.t) : number :=
  parseFloat (Element.form p).

Definition ownership_value (p : Element.t) : number :=
  parseFloat (Element.selected_by_percent p).

(** What a filter-sort-limit operation [op] computes: the first [limit]
    entries of an ordering [ranked] of the entries that pass [pred]. *)
Definition ranks (op : list Element.t -> list Element.t) (limit : nat)
    (pred : Element.t -> bool) (before : Element.t -> Element.t -> Prop)
    : Prop :=
  forall players,
    length (op players) = Nat.min limit (length (List.filter pred players))
    /\ exists ranked,
         Permutation ranked (List.filter pred players)
         /\ StronglySorted before ranked
         /\ op players = firstn limit ranked.

Definition no_filter (p : Element.t) : bool := true.


(** The keys of a list in the order of their first occurrence. *)
Definition add_key (seen : list Z) (k : Z) : list Z :=
  if existsb (Z.eqb k) seen then seen else seen ++ [k].

Definition first_keys (ks : list Z) : list Z := fold_left add_key ks [].

(** The fixtures of [l] played on local day [d], in the order of [l]. *)
Definition on_day (tza : Z -> Z) (d : Z) (l : list Fixture.t)
    : list Fixture.t :=
  List.filter (fun f => date_of tza f =? d) l.

(** [x] is the first entry of [l] that satisfies [pred]. *)
Definition first_with {A : Type} (pred : A -> bool) (l : list A) (x : A)
    : Prop :=
  exists l1 l2,
    l = l1 ++ x :: l2 /\ pred x = true
    /\ Forall (fun y => pred y = false) l1.

Definition none_with {A : Type} (pred : A -> bool) (l : list A) : Prop :=
  Forall (fun y => pred y = false) l.

Definition unfinished (e : Event.t) : bool := negb (Event.finished e).

(** The entries of [output] selected by [same_key] are, in the same
    order, the first entries of [input] selected by it. *)
Definition ties_in_input_order {A : Type} (same_key : A -> bool)
    (input output : list A) : Prop :=
  exists rest,
    List.filter same_key input = List.filter same_key output ++ rest.

(** [x > c] for a number [x] and a rational [c]. *)
Definition num_exceeds (x : number) (c : Q) : Prop :=
  match x with
  | Finite q => (c < q)%Q
  | PosInfinity => True
  | NaN | NegInfinity => False
  end.

(** Decimal notation: the text [i1...im.f1...fn] of two digit sequences
    and the rational it denotes. *)
Definition digit_char (d : Z) : ascii := ascii_of_nat (Z.to_nat (48 + d)).

Fixpoint digits_string (ds : list Z) : string :=
  match ds with
  | [] => EmptyString
  | d :: r => String (digit_char d) (digits_string r)
  end.

Definition decimal_string (ip fp : list Z) : string :=
  (digits_string ip ++ String "." (digits_string fp))%string.

Definition decimal_value (ip fp : list Z) : Q :=
  (inject_Z (digits_value (ip ++ fp))
   * Qpower 10 (0 - Z.of_nat (length fp)))%Q.

Definition decimal_digits (ds : list Z) : Prop :=
  Forall (fun d => 0 <= d <= 9) ds.

Definition is_NaN (x : number) : bool :=
  match x with NaN => true | _ => false end.

(** A player one of whose decimal-as-string fields does not parse. *)
Definition malformed (p : Element.t) : bool :=
  is_NaN (ownership_value p) || is_NaN (form_value p).

Definition set_decimal_fields (ownership form : string) (p : Element.t)
    : Element.t :=
  Element.mk (Element.id p) (Element.web_name p) (Element.team p)
             (Element.element_type p) (Element.status p) (Element.news p)
             ownership form
             (Element.transfers_in_event p) (Element.transfers_out_event p)
             (Element.cost_change_event p).

(** The same player with every unparsable decimal field replaced by the
    text of zero. *)
Definition zero_malformed (p : Element.t) : Element.t :=
  set_decimal_fields
    (if is_NaN (ownership_value p) then "0"%string
     else Element.selected_by_percent p)
    (if is_NaN (form_value p) then "0"%string else Element.form p)
    p.

Definition set_element_type (code : Z) (p : Element.t) : Element.t :=
  Element.mk (Element.id p) (Element.web_name p) (Element.team p)
             code (Element.status p) (Element.news p)
             (Element.selected_by_percent p) (Element.form p)
             (Element.transfers_in_event p) (Element.transfers_out_event p)
             (Element.cost_change_event p).

(** The closed sets of the data model. *)
Definition known_status (s : string) : Prop :=
  s = "a"%string \/ s = "d"%string \/ s = "i"%string
  \/ s = "s"%string \/ s = "u"%string.

Definition known_position (code : Z) : Prop := 1 <= code <= 4.

(** [op] treats [p] and [g p] alike: it ranks the images of the players
    as it ranks the players. *)
Definition commutes_with (g : Element.t -> Element.t)
    (op : list Element.t -> list Element.t) : Prop :=
  forall players, op (map g players) = map g (op players).

Definition all_rankings (holds : (list Element.t -> list Element.t) -> Prop)
    : Prop :=
  holds topTransfersIn /\ holds topTransfersOut /\ holds formPlayers
  /\ holds injuries /\ holds priceRisers /\ holds priceFallers.

(** ** The helpers of the template *)

Definition getTeamName (teams : list Team.t) (id : Z) : string :=
  match List.find (fun t => Team.id t =? id) teams with
  | Some team => Team.short_name team
  | None => "???"
  end.

(** The table [colors] of [getDifficultyColor]. *)
Definition colors (fdr : Z) : option string :=
  if fdr =? 1 then Some "#257d5a"%string
  else if fdr =? 2 then Some "#00ff87"%string
  else if fdr =? 3 then Some "#ebebe4"%string
  else if fdr =? 4 then Some "#ff1751"%string
  else if fdr =? 5 then Some "#80072d"%string
  else None.

Definition getDifficultyColor (fdr : Z) : option string :=
  or_else (colors fdr) (colors 3).

Definition getDifficultyTextColor (fdr : Z) : string :=
  if existsb (Z.eqb fdr) [1; 4; 5] then "#fff" else "#333".

(** [getTimeUntil].  [now] is the time value of [new Date()] and
    [deadline] that of [new Date(deadline)], both in milliseconds.
    [time_left] computes the figures, [show_countdown] is the template
    string they are put in; [`${n}`] of an integer is its decimal
    numeral. *)
Inductive countdown : Type :=
| Passed
| DaysHours (days hours : Z)
| HoursMinutes (hours mins : Z)
| Minutes (mins : Z).

Definition time_left (now deadline : Z) : countdown :=
  let diff := deadline - now in
  if diff <? 0 then Passed
  else
    let days := diff / (1000 * 60 * 60 * 24) in
    let hours := Z.rem diff (1000 * 60 * 60 * 24) / (1000 * 60 * 60) in
    let mins := Z.rem diff (1000 * 60 * 60) / (1000 * 60) in
    if days >? 0 then DaysHours days hours
    else if hours >? 0 then HoursMinutes hours mins
    else Minutes mins.

Definition show_Z (z : Z) : string := NilZero.string_of_int (Z.to_int z).

Definition show_countdown (c : countdown) : string :=
  match c with
  | Passed => "PASSED"
  | DaysHours days hours => show_Z days ++ "d " ++ show_Z hours ++ "h"
  | HoursMinutes hours mins => show_Z hours ++ "h " ++ show_Z mins ++ "m"
  | Minutes mins => show_Z mins ++ "m"
  end.

Definition getTimeUntil (now deadline : Z) : string :=
  show_countdown (time_left now deadline).

(** The time, in milliseconds, that a countdown displays. *)
Definition displayed_ms (c : countdown) : Z :=
  match c with
  | Passed => 0
  | DaysHours days hours => days * msPerDay + hours * 3600000
  | HoursMinutes hours mins => hours * 3600000 + mins * 60000
  | Minutes mins => mins * 60000
  end.

(** The unit of the last figure a countdown displays. *)
Definition display_unit (c : countdown) : Z :=
  match c with
  | Passed => 0
  | DaysHours _ _ => 3600000
  | HoursMinutes _ _ | Minutes _ => 60000
  end.

Definition well_formed_countdown (c : countdown) : Prop :=
  match c with
  | Passed => True
  | DaysHours days hours => 0 < days /\ 0 <= hours < 24
  | HoursMinutes hours mins => 0 < hours < 24 /\ 0 <= mins < 60
  | Minutes mins => 0 <= mins < 60
  end.

Fixpoint ends_with (c : ascii) (s : string) : bool :=
  match s with
  | EmptyString => false
  | String x EmptyString => Ascii.eqb x c
  | String _ r => ends_with c r
  end.

(** ** The script: [fetchJSON], [fetchFPLData], [main]

    The script is run against a [world] that fixes what its calls to the
    outside return: the two HTTP exchanges, whether the output directory
    exists, and whether each file system call succeeds.  A run yields the
    sequence of its calls with an effect outside the process (requests,
    console output, directory creation, file writes, exit), in order.
    The text of the page is not modelled: a written page is recorded by
    the values it was rendered from, and [data.json] by the data it
    serialises.  The two payloads are taken to have the shape of the
    snapshot. *)

Inductive response (A : Type) : Type :=
| NetworkFailure
| HttpResponse (ok : bool) (status : Z) (json : option A).
Arguments NetworkFailure {A}.
Arguments HttpResponse {A} ok status json.

Inductive file_content : Type :=
| Page (views : Views)
| Json (data : Data).

Inductive effect : Type :=
| console_log (message : string)
| console_error (error_name : string)
| fetch (url : string)
| mkdirSync (dir : string)
| writeFileSync (path : string) (content : file_content)
| process_exit (code : Z).

Record world : Type := {
  bootstrap_static : response Bootstrap;
  all_fixtures : response (list Fixture.t);
  LocalTZA : Z -> Z;
  public_exists : bool;
  mkdir_throws : bool;
  write_index_throws : bool;
  write_data_throws : bool
}.

(** A computation that performs effects and returns or throws. *)
Definition Run (A : Type) : Type := list effect * completion A.

#[global] Instance Run_ret : MRet Run := fun A a => ([], Normal a).

#[global] Instance Run_bind : MBind Run :=
  fun A B f m =>
    match m with
    | (t, Normal a) => let '(t', r) := f a in (t ++ t', r)
    | (t, Throw name) => (t, Throw name)
    end.

Definition run_throw {A : Type} (name : string) : Run A := ([], Throw name).

Definition emit (e : effect) : Run unit := ([e], Normal tt).

Definition lift {A : Type} (c : completion A) : Run A := ([], c).

Definition FPL_API : string := "https://fantasy.premierleague.com/api".

(** [fetch] rejects with a [TypeError] on a network failure; [json()]
    rejects with a [SyntaxError] when the body is not JSON. *)
Definition fetchJSON {A : Type} (url : string) (r : response A) : Run A :=
  emit (fetch url);;
  match r with
  | NetworkFailure => run_throw "TypeError"
  | HttpResponse ok status json =>
      if negb ok then run_throw "Error"
      else match json with
           | Some value => mret value
           | None => run_throw "SyntaxError"
           end
  end.

Definition fetchFPLData (w : world) : Run Data :=
  emit (console_log "📊 Fetching FPL data...");;
  b ← fetchJSON (FPL_API ++ "/bootstrap-static/")%string (bootstrap_static w);
  f ← fetchJSON (FPL_API ++ "/fixtures/")%string (all_fixtures w);
  mret {| bootstrap := b; fixtures := f |}.

Definition fs_call (e : effect) (throws : bool) : Run unit :=
  emit e;; if throws then run_throw "Error" else mret tt.

(** The body of the [try] block of [main]. *)
Definition main_try (w : world) : Run unit :=
  data ← fetchFPLData w;
  emit (console_log "✅ Data fetched");;
  html ← lift (buildHTML (LocalTZA w) data);
  emit (console_log "✅ HTML generated");;
  (if negb (public_exists w)
   then fs_call (mkdirSync "public") (mkdir_throws w)
   else mret tt);;
  fs_call (writeFileSync "public/index.html" (Page html))
          (write_index_throws w);;
  emit (console_log "✅ Written to public/index.html");;
  fs_call (writeFileSync "data.json" (Json data)) (write_data_throws w);;
  emit (console_log "✅ Raw data saved to data.json");;
  emit (console_log (String "010" "🎉 Build complete!")).

(** [main]: the [catch] block reports the error and exits with code 1. *)
Definition main (w : world) : list effect :=
  match main_try w with
  | (t, Normal _) => t
  | (t, Throw name) => t ++ [console_error name; process_exit 1]
  end.

Definition is_write (e : effect) : bool :=
  match e with
  | mkdirSync _ | writeFileSync _ _ => true
  | _ => false
  end.

(** Both exchanges succeed with a payload, and the payload has a
    gameweek. *)
Definition fetched (w : world) (data : Data) : Prop :=
  (exists status, bootstrap_static w
                  = HttpResponse true status (Some (bootstrap data)))
  /\ (exists status, all_fixtures w
                     = HttpResponse true status (Some (fixtures data))).

Definition build_complete : effect :=
  console_log (String "010" "🎉 Build complete!").

(** The first request did not yield a payload: the error [main] reports. *)
Definition request_error {A : Type} (r : response A) : option string :=
  match r with
  | NetworkFailure => Some "TypeError"%string
  | HttpResponse false _ _ => Some "Error"%string
  | HttpResponse true _ None => Some "SyntaxError"%string
  | HttpResponse true _ (Some _) => None
  end.

(** ** Sample data *)

(** A machine whose local time is UTC. *)
Definition utc (t : Z) : Z := 0.

Definition empty_data : Data :=
  {| bootstrap := {| elements := []; teams := []; events := [] |};
     fixtures := [] |}.

Definition gw_current_1 : Event.t := Event.mk 1 "Gameweek 1" 0 false true false.
Definition gw_next_2 : Event.t := Event.mk 2 "Gameweek 2" 0 true false false.
Definition gw_finished_1 : Event.t := Event.mk 1 "Gameweek 1" 0 false false true.
Definition gw_open_2 : Event.t := Event.mk 2 "Gameweek 2" 0 false false false.
Definition gw_finished_2 : Event.t := Event.mk 2 "Gameweek 2" 0 false false true.

(** A machine on British Summer Time, one hour ahead of UTC. *)
Definition bst (t : Z) : Z := 3600000.

(** Kick-offs at 2025-08-16T14:00Z, 2025-08-17T13:00Z, 2025-08-16T22:30Z
    and 2025-08-16T23:30Z, all in gameweek 1. *)
Definition fx_saturday : Fixture.t :=
  Fixture.mk 1 (Some 1) 1 2 1755352800000 2 4.
Definition fx_sunday : Fixture.t :=
  Fixture.mk 2 (Some 1) 3 4 1755435600000 3 3.
Definition fx_late : Fixture.t :=
  Fixture.mk 3 (Some 1) 5 6 1755383400000 2 2.
Definition fx_later : Fixture.t :=
  Fixture.mk 4 (Some 1) 7 8 1755387000000 3 2.

Definition player (id : Z) (status ownership form : string)
    (transfers_in transfers_out cost_change : Z) : Element.t :=
  Element.mk id "Player" 1 3 status "" ownership form
             transfers_in transfers_out cost_change.

Definition p_owned_2_5 : Element.t := player 1 "a" "2.5" "3.0" 0 0 0.
Definition p_owned_2_0 : Element.t := player 2 "a" "2.0" "3.0" 0 0 0.
Definition p_owned_10 : Element.t := player 3 "a" "10.0" "3.0" 0 0 0.

(** An ownership one part in 10^16 above 2. *)
Definition p_owned_close : Element.t :=
  player 4 "a" "2.0000000000000001" "3.0" 0 0 0.

(** Five players in demand, and a sixth nobody moves whose decimal fields
    are either unparsable or zero. *)
Definition busy (i : Z) : Element.t :=
  player i "a" "20.0" "5.0" (1000 * i) (1000 * i) 0.

Definition crowd : list Element.t := [busy 1; busy 2; busy 3; busy 4; busy 5].

Definition p_malformed : Element.t := player 6 "a" "n/a" "n/a" 0 0 0.
Definition p_zero : Element.t := player 6 "a" "0" "0" 0 0 0.

(** A sixth player who qualifies for the form list, in lesser form than
    the five of [crowd]. *)
Definition p_sixth : Element.t := player 6 "a" "2.5" "3.0" 0 0 0.

Definition data_with (p : Element.t) : Data :=
  {| bootstrap := {| elements := crowd ++ [p]; teams := [];
                     events := [gw_next_2] |};
     fixtures := [] |}.

(** A player whose status code is none of the five known ones. *)
Definition p_unknown_status : Element.t := player 7 "x" "5.0" "1.0" 0 0 0.

(** A store holding one snapshot, each collection at location 0. *)
Definition sample_store : Store.store :=
  {| Store.element_arrays := [crowd ++ [p_unknown_status]];
     Store.team_arrays := [[Team.mk 1 "Arsenal" "ARS"]];
     Store.event_arrays := [[gw_current_1; gw_next_2]];
     Store.fixture_arrays := [[fx_sunday; fx_later; fx_saturday; fx_late]] |}.

Definition sample_refs : Store.data :=
  {| Store.ref_elements := 0%nat; Store.ref_teams := 0%nat;
     Store.ref_events := 0%nat; Store.ref_fixtures := 0%nat |}.

Definition team_ars : Team.t := Team.mk 1 "Arsenal" "ARS".
Definition team_che : Team.t := Team.mk 2 "Chelsea" "CHE".

(** A world where everything succeeds except the last write, and one
    whose first request gets an HTTP error. *)
Definition sample_data : Data :=
  {| bootstrap := {| elements := crowd; teams := [team_ars; team_che];
                     events := [gw_current_1; gw_next_2] |};
     fixtures := [fx_saturday; fx_late] |}.

Definition sample_world : world :=
  {| bootstrap_static := HttpResponse true 200 (Some (bootstrap sample_data));
     all_fixtures := HttpResponse true 200 (Some (fixtures sample_data));
     LocalTZA := utc;
     public_exists := false;
     mkdir_throws := false;
     write_index_throws := false;
     write_data_throws := true |}.

Definition world_without_gameweeks : world :=
  {| bootstrap_static := HttpResponse true 200 (Some (bootstrap empty_data));
     all_fixtures := HttpResponse true 200 (Some (fixtures empty_data));
     LocalTZA := utc;
     public_exists := true;
     mkdir_throws := false;
     write_index_throws := false;
     write_data_throws := false |}.

Definition world_unavailable : world :=
  {| bootstrap_static := HttpResponse false 503 None;
     all_fixtures := HttpResponse true 200 (Some []);
     LocalTZA := utc;
     public_exists := true;
     mkdir_throws := false;
     write_index_throws := false;
     write_data_throws := false |}.

(** * Properties *)

(** ** Numbers and comparators *)

Lemma Qgtb_true (a b : Q) : Qgtb a b = true <-> (b < a)%Q.
Proof.
  unfold Qgtb. rewrite (Qgt_alt a b).
  destruct (a ?= b)%Q; split; congruence.
Qed.

Lemma Qgtb_false (a b : Q) : Qgtb a b = false <-> (a <= b)%Q.
Proof.
  unfold Qgtb. rewrite (Qle_alt a b).
  destruct (a ?= b)%Q; split; congruence.
Qed.

Lemma num_gt_of_Z (a b : Z) : num_gt (num_of_Z a) (num_of_Z b) = (a >? b).
Proof.
  unfold num_of_Z, num_gt, Qgtb, Qcompare, Z.gtb. simpl.
  now rewrite !Z.mul_1_r.
Qed.

Lemma num_gt_sub (a b : number) :
  num_gt (num_sub a b) (num_of_Z 0) = num_gt a b.
Proof.
  destruct a as [| |x|], b as [| |y|]; simpl; try reflexivity.
  destruct (Qgtb x y) eqn:E.
  - apply Qgtb_true. apply Qgtb_true in E. unfold inject_Z.
    apply (Qplus_lt_l _ _ y). ring_simplify. exact E.
  - apply Qgtb_false. apply Qgtb_false in E. unfold inject_Z.
    apply (Qplus_le_l _ _ y). ring_simplify. exact E.
Qed.

Lemma num_gt_asym (a b : number) : num_gt a b = true -> num_gt b a = false.
Proof.
  destruct a as [| |x|], b as [| |y|]; simpl; try congruence.
  intros H. apply Qgtb_true in H. apply Qgtb_false. now apply Qlt_le_weak.
Qed.

Lemma num_gt_false_trans (a b c : number) :
  b <> NaN ->
  num_gt a b = false -> num_gt b c = false -> num_gt a c = false.
Proof.
  destruct a as [| |x|], b as [| |y|], c as [| |z|]; simpl;
    try congruence.
  intros _ H1 H2. apply Qgtb_false in H1, H2. apply Qgtb_false.
  now apply Qle_trans with y.
Qed.

Lemma num_gt_not_NaN_l (a b : number) : num_gt a b = true -> a <> NaN.
Proof. destruct a; simpl; congruence. Qed.

(** ** [sort]: permutation, stability, order *)

Section SortFacts.
Context {A : Type}.
Variable comparefn : A -> A -> number.

Local Abbreviation after := (sorts_after comparefn).
Local Abbreviation before := (fun x y => sorts_after comparefn x y = false).

Lemma insert_sorted_perm (x : A) (l : list A) :
  Permutation (insert_sorted comparefn x l) (x :: l).
Proof.
  induction l as [|y r IH]; simpl.
  - reflexivity.
  - destruct (after x y).
    + rewrite IH. apply perm_swap.
    + reflexivity.
Qed.

Lemma sort_perm (l : list A) : Permutation (sort comparefn l) l.
Proof.
  induction l as [|x l IH]; simpl.
  - reflexivity.
  - rewrite insert_sorted_perm. now apply perm_skip.
Qed.

Lemma sort_length (l : list A) : length (sort comparefn l) = length l.
Proof. apply Permutation_length, sort_perm. Qed.

Lemma sort_In (x : A) (l : list A) : In x (sort comparefn l) <-> In x l.
Proof.
  split; apply Permutation_in; [|symmetry]; apply sort_perm.
Qed.

(** Stability: the entries of a class whose members never sort after
    one another keep their order. *)
Lemma insert_sorted_filter (Q : A -> bool) (x : A) (l : list A) :
  (forall y, In y l -> Q x = true -> Q y = true -> after x y = false) ->
  List.filter Q (insert_sorted comparefn x l) = List.filter Q (x :: l).
Proof.
  induction l as [|y r IH]; intros H; [reflexivity|].
  cbn [insert_sorted]. destruct (after x y) eqn:E; [|reflexivity].
  assert (IH' : List.filter Q (insert_sorted comparefn x r)
                = List.filter Q (x :: r)).
  { apply IH. intros z Hz. apply H. now right. }
  cbn [List.filter] in *. rewrite IH'.
  destruct (Q x) eqn:Qx, (Q y) eqn:Qy; try reflexivity.
  specialize (H y (or_introl eq_refl) eq_refl Qy). congruence.
Qed.

Lemma sort_stable (Q : A -> bool) (l : list A) :
  (forall x y, In x l -> In y l ->
               Q x = true -> Q y = true -> after x y = false) ->
  List.filter Q (sort comparefn l) = List.filter Q l.
Proof.
  induction l as [|x l IH]; intros H; [reflexivity|].
  cbn [sort foldr]. fold (sort comparefn l).
  rewrite insert_sorted_filter.
  - cbn [List.filter]. rewrite IH; [reflexivity|].
    intros a b Ha Hb. apply H; now right.
  - intros y Hy. apply H; [now left|].
    right. now apply sort_In.
Qed.

(** Order: on entries where the comparator is consistent the result is
    sorted. *)
Section Sorted.
Variable P : A -> Prop.
Hypothesis after_asym :
  forall x y, P x -> P y -> after x y = true -> after y x = false.
Hypothesis before_trans :
  forall x y z, P x -> P y -> P z ->
                after x y = false -> after y z = false ->
                after x z = false.

Lemma insert_sorted_sorted (x : A) (l : list A) :
  P x -> Forall P l ->
  StronglySorted before l ->
  StronglySorted before (insert_sorted comparefn x l).
Proof.
  intros Px. induction l as [|y r IH]; intros HP HS; simpl.
  - repeat constructor.
  - apply Forall_cons_iff in HP as [Py Pr].
    apply StronglySorted_inv in HS as [HS Hy].
    destruct (after x y) eqn:E.
    + constructor; [now apply IH|].
      apply (Permutation_Forall
               (Permutation_sym (insert_sorted_perm x r))).
      constructor; [now apply after_asym|exact Hy].
    + constructor; [now constructor|].
      constructor; [exact E|].
      rewrite Forall_forall in Hy, Pr |- *. intros z Hz.
      apply before_trans with y; auto.
Qed.

Lemma sort_sorted (l : list A) :
  Forall P l -> StronglySorted before (sort comparefn l).
Proof.
  induction l as [|x l IH]; intros HP; simpl.
  - constructor.
  - apply Forall_cons_iff in HP as [Px Pl].
    apply insert_sorted_sorted; auto.
    apply (Permutation_Forall (Permutation_sym (sort_perm l))), Pl.
Qed.
End Sorted.
End SortFacts.

Lemma Zgtb_sub (a b : Z) : (a - b >? 0) = (a >? b).
Proof.
  rewrite !Z.gtb_ltb.
  destruct (Z.ltb_spec 0 (a - b)), (Z.ltb_spec b a);
    try reflexivity; exfalso; lia.
Qed.

Lemma StronglySorted_weaken {A : Type} (R R' : A -> A -> Prop) (l : list A) :
  (forall x y, In x l -> In y l -> R x y -> R' x y) ->
  StronglySorted R l -> StronglySorted R' l.
Proof.
  induction l as [|a l IH]; intros H HS; [constructor|].
  apply StronglySorted_inv in HS as [HS Ha].
  constructor.
  - apply IH; [|exact HS]. intros x y Hx Hy. apply H; now right.
  - rewrite List.Forall_forall in Ha |- *. intros y Hy.
    apply H; [now left|now right|now apply Ha].
Qed.

Lemma StronglySorted_firstn {A : Type} (R : A -> A -> Prop) (n : nat)
    (l : list A) :
  StronglySorted R l -> StronglySorted R (firstn n l).
Proof.
  revert n. induction l as [|a l IH]; intros [|n] HS; simpl;
    try constructor.
  - apply IH. now apply StronglySorted_inv in HS.
  - apply StronglySorted_inv in HS as [_ Ha].
    rewrite List.Forall_forall in Ha |- *. intros y Hy. apply Ha.
    rewrite <- (firstn_skipn n l). apply in_or_app. now left.
Qed.

Lemma slice_0 {A : Type} (n : nat) (l : list A) : slice 0 n l = firstn n l.
Proof. unfold slice. now rewrite Nat.sub_0_r. Qed.

Lemma filter_firstn_prefix {A : Type} (Q : A -> bool) (n : nat) (l : list A) :
  exists rest,
    List.filter Q l = List.filter Q (firstn n l) ++ rest.
Proof.
  exists (List.filter Q (skipn n l)).
  now rewrite <- List.filter_app, firstn_skipn.
Qed.

Lemma filter_no_filter (l : list Element.t) : List.filter no_filter l = l.
Proof.
  induction l as [|x l IH]; simpl; [reflexivity|now rewrite IH].
Qed.

(** Sorting by an integer key, largest first. *)
Section SortByIntegerKey.
Context {A : Type}.
Variable comparefn : A -> A -> number.
Variable key : A -> Z.
Hypothesis after_key :
  forall x y, sorts_after comparefn x y = (key y >? key x).

Lemma sort_desc (l : list A) :
  StronglySorted (fun x y => key y <= key x) (sort comparefn l).
Proof.
  apply StronglySorted_weaken
    with (R := fun x y => sorts_after comparefn x y = false).
  - intros x y _ _. rewrite after_key, Z.gtb_ltb, Z.ltb_ge. trivial.
  - apply sort_sorted with (P := fun _ => True).
    + intros x y _ _. rewrite !after_key, !Z.gtb_ltb, Z.ltb_lt, Z.ltb_ge.
      lia.
    + intros x y z _ _ _.
      rewrite !after_key, !Z.gtb_ltb, !Z.ltb_ge. lia.
    + now apply List.Forall_forall.
Qed.

Lemma sort_key_stable (k : Z) (l : list A) :
  List.filter (fun x => key x =? k) (sort comparefn l)
  = List.filter (fun x => key x =? k) l.
Proof.
  apply sort_stable. intros x y _ _ Hx Hy.
  rewrite after_key, Z.gtb_ltb, Z.ltb_ge. lia.
Qed.
End SortByIntegerKey.

(** Sorting by a numeric key, largest first, where no key is NaN. *)
Section SortByNumberKey.
Context {A : Type}.
Variable comparefn : A -> A -> number.
Variable key : A -> number.
Hypothesis after_key :
  forall x y, sorts_after comparefn x y = num_gt (key y) (key x).

Lemma sort_num_desc (l : list A) :
  Forall (fun x => key x <> NaN) l ->
  StronglySorted (fun x y => num_ge (key x) (key y)) (sort comparefn l).
Proof.
  intros Hl.
  apply StronglySorted_weaken
    with (R := fun x y => sorts_after comparefn x y = false).
  - rewrite List.Forall_forall in Hl.
    intros x y Hx Hy E. rewrite after_key in E.
    split; [|split]; [apply Hl| apply Hl| exact E];
      now apply (sort_In comparefn).
  - apply sort_sorted with (P := fun x => key x <> NaN); [| |exact Hl].
    + intros x y _ _. rewrite !after_key. apply num_gt_asym.
    + intros x y z _ Hy _. rewrite !after_key. intros H1 H2.
      now apply num_gt_false_trans with (key y).
Qed.

Lemma num_eqb_not_gt (a b v : number) :
  num_eqb a v = true -> num_eqb b v = true -> num_gt b a = false.
Proof.
  destruct a as [| |x|], b as [| |y|], v as [| |z|]; simpl;
    try congruence.
  intros H1 H2. apply Qeq_bool_iff in H1, H2. apply Qgtb_false.
  rewrite H1, H2. apply Qle_refl.
Qed.

Lemma sort_num_key_stable (v : number) (l : list A) :
  List.filter (fun x => num_eqb (key x) v) (sort comparefn l)
  = List.filter (fun x => num_eqb (key x) v) l.
Proof.
  apply sort_stable. intros x y _ _ Hx Hy.
  rewrite after_key. now apply num_eqb_not_gt with v.
Qed.
End SortByNumberKey.

(** ** The comparators of [buildHTML] *)

Lemma after_by_transfers_in (x y : Element.t) :
  sorts_after by_transfers_in x y
  = (Element.transfers_in_event y >? Element.transfers_in_event x).
Proof. unfold sorts_after, by_transfers_in. now rewrite num_gt_of_Z, Zgtb_sub. Qed.

Lemma after_by_transfers_out (x y : Element.t) :
  sorts_after by_transfers_out x y
  = (Element.transfers_out_event y >? Element.transfers_out_event x).
Proof. unfold sorts_after, by_transfers_out. now rewrite num_gt_of_Z, Zgtb_sub. Qed.

Lemma after_by_cost_change_desc (x y : Element.t) :
  sorts_after by_cost_change_desc x y
  = (Element.cost_change_event y >? Element.cost_change_event x).
Proof.
  unfold sorts_after, by_cost_change_desc. now rewrite num_gt_of_Z, Zgtb_sub.
Qed.

Lemma after_by_cost_change_asc (x y : Element.t) :
  sorts_after by_cost_change_asc x y
  = (- Element.cost_change_event y >? - Element.cost_change_event x).
Proof.
  unfold sorts_after, by_cost_change_asc.
  rewrite num_gt_of_Z, Zgtb_sub, !Z.gtb_ltb.
  destruct (Z.ltb_spec (Element.cost_change_event y)
                       (Element.cost_change_event x)),
           (Z.ltb_spec (- Element.cost_change_event x)
                       (- Element.cost_change_event y));
    try reflexivity; exfalso; lia.
Qed.

Lemma after_by_kickoff (x y : Fixture.t) :
  sorts_after by_kickoff x y
  = (- Fixture.kickoff_time y >? - Fixture.kickoff_time x).
Proof.
  unfold sorts_after, by_kickoff.
  rewrite num_gt_of_Z, Zgtb_sub, !Z.gtb_ltb.
  destruct (Z.ltb_spec (Fixture.kickoff_time y) (Fixture.kickoff_time x)),
           (Z.ltb_spec (- Fixture.kickoff_time x) (- Fixture.kickoff_time y));
    try reflexivity; exfalso; lia.
Qed.

Lemma after_by_form (x y : Element.t) :
  sorts_after by_form x y = num_gt (form_value y) (form_value x).
Proof. unfold sorts_after, by_form. apply num_gt_sub. Qed.

Lemma after_by_ownership (x y : Element.t) :
  sorts_after by_ownership x y
  = num_gt (ownership_value y) (ownership_value x).
Proof. unfold sorts_after, by_ownership. apply num_gt_sub. Qed.

(** The filters leave no NaN key for the comparators to meet. *)
Lemma form_filter_value (p : Element.t) :
  form_filter p = true ->
  num_gt (ownership_value p) (num_of_Z 2) = true
  /\ num_gt (form_value p) (num_of_Z 0) = true.
Proof. unfold form_filter. intros H. now apply andb_prop in H. Qed.

Lemma injury_filter_value (p : Element.t) :
  injury_filter p = true ->
  Element.status p <> "a"%string
  /\ num_gt (ownership_value p) (num_of_Z 3) = true.
Proof.
  unfold injury_filter. intros H. apply andb_prop in H as [H1 H2].
  split; [|exact H2].
  apply negb_true_iff in H1. now apply String.eqb_neq.
Qed.

Lemma filter_Forall {A : Type} (pred : A -> bool) (l : list A) :
  Forall (fun x => pred x = true) (List.filter pred l).
Proof.
  apply List.Forall_forall. intros x Hx. now apply List.filter_In in Hx.
Qed.

Lemma ranks_intro (op : list Element.t -> list Element.t) (limit : nat)
    (pred : Element.t -> bool) (before : Element.t -> Element.t -> Prop)
    (comparefn : Element.t -> Element.t -> number) :
  (forall players,
      op players = slice 0 limit (sort comparefn (List.filter pred players))) ->
  (forall l, Forall (fun p => pred p = true) l ->
             StronglySorted before (sort comparefn l)) ->
  ranks op limit pred before.
Proof.
  intros Hop Hsorted players. rewrite Hop, slice_0. split.
  - now rewrite List.length_firstn, sort_length.
  - exists (sort comparefn (List.filter pred players)).
    split; [apply sort_perm|]. split; [|reflexivity].
    apply Hsorted, filter_Forall.
Qed.

(** C5. Each of the six rankings returns the first [Limit] entries (5, 5,
    5, 8, 5, 5) of the players passing its filter, ordered by its key: its
    length is the minimum of the limit and the number of such players, so
    it holds all of them when they are fewer and is empty when there are
    none. *)
Theorem ranking_bounds :
  ranks topTransfersIn 5 no_filter
        (fun x y => Element.transfers_in_event y
                    <= Element.transfers_in_event x)
  /\ ranks topTransfersOut 5 no_filter
           (fun x y => Element.transfers_out_event y
                       <= Element.transfers_out_event x)
  /\ ranks formPlayers 5 form_filter
           (fun x y => num_ge (form_value x) (form_value y))
  /\ ranks injuries 8 injury_filter
           (fun x y => num_ge (ownership_value x) (ownership_value y))
  /\ ranks priceRisers 5 riser_filter
           (fun x y => Element.cost_change_event y
                       <= Element.cost_change_event x)
  /\ ranks priceFallers 5 faller_filter
           (fun x y => Element.cost_change_event x
                       <= Element.cost_change_event y).
Proof.
  split; [|split; [|split; [|split; [|split]]]].
  - apply ranks_intro with by_transfers_in.
    + intros. unfold topTransfersIn. now rewrite filter_no_filter.
    + intros l _. apply sort_desc, after_by_transfers_in.
  - apply ranks_intro with by_transfers_out.
    + intros. unfold topTransfersOut. now rewrite filter_no_filter.
    + intros l _. apply sort_desc, after_by_transfers_out.
  - apply ranks_intro with by_form; [reflexivity|].
    intros l Hl. apply sort_num_desc; [apply after_by_form|].
    eapply List.Forall_impl; [|exact Hl]. intros p Hp.
    apply form_filter_value in Hp as [_ Hp].
    now apply num_gt_not_NaN_l in Hp.
  - apply ranks_intro with by_ownership; [reflexivity|].
    intros l Hl. apply sort_num_desc; [apply after_by_ownership|].
    eapply List.Forall_impl; [|exact Hl]. intros p Hp.
    apply injury_filter_value in Hp as [_ Hp].
    now apply num_gt_not_NaN_l in Hp.
  - apply ranks_intro with by_cost_change_desc; [reflexivity|].
    intros l _. apply sort_desc, after_by_cost_change_desc.
  - apply ranks_intro with by_cost_change_asc; [reflexivity|].
    intros l _.
    apply StronglySorted_weaken
      with (R := fun x y => - Element.cost_change_event y
                            <= - Element.cost_change_event x).
    + intros; lia.
    + apply (sort_desc by_cost_change_asc
               (fun p => - Element.cost_change_event p)).
      apply after_by_cost_change_asc.
Qed.

(** ** The gameweek selector *)

Lemma find_first_with {A : Type} (pred : A -> bool) (l : list A) (x : A) :
  List.find pred l = Some x -> first_with pred l x.
Proof.
  induction l as [|a l IH]; simpl; [discriminate|].
  destruct (pred a) eqn:E.
  - intros [= <-]. exists [], l. repeat split; [exact E|constructor].
  - intros H. destruct (IH H) as (l1 & l2 & -> & Hx & Hl1).
    exists (a :: l1), l2. repeat split; [exact Hx|now constructor].
Qed.

Lemma find_none_with {A : Type} (pred : A -> bool) (l : list A) :
  List.find pred l = None -> none_with pred l.
Proof.
  intros H. apply List.Forall_forall. intros x Hx.
  now apply (List.find_none pred l H).
Qed.

Lemma first_with_In {A : Type} (pred : A -> bool) (l : list A) (x : A) :
  first_with pred l x -> In x l.
Proof.
  intros (l1 & l2 & -> & _). apply in_or_app. right. now left.
Qed.

Lemma last_element_snoc {A : Type} (l : list A) (x : A) :
  last_element (l ++ [x]) = Some x.
Proof.
  unfold last_element. rewrite List.length_app, Nat.add_1_r. simpl.
  rewrite nth_error_app2, Nat.sub_diag; [reflexivity|lia].
Qed.

Lemma last_element_nonempty {A : Type} (l : list A) :
  l <> [] -> exists l1 x, l = l1 ++ [x] /\ last_element l = Some x.
Proof.
  intros H. destruct (exists_last H) as (l1 & x & ->).
  exists l1, x. split; [reflexivity|apply last_element_snoc].
Qed.

Lemma last_element_empty {A : Type} (l : list A) :
  last_element l = None <-> l = [].
Proof.
  split; [|intros ->; reflexivity].
  destruct l as [|a l]; [reflexivity|]. intros H. exfalso.
  destruct (last_element_nonempty (a :: l)) as (l1 & x & _ & E);
    [discriminate|congruence].
Qed.

(** C1. On a non-empty list the selector returns the first gameweek
    flagged [is_next]; failing that the first flagged [is_current];
    failing that the first that is not [finished]; failing that the last
    gameweek.  Each rule applies only when every earlier one found
    nothing. *)
Theorem getCurrentGameweek_priority (events : list Event.t) :
  events <> [] ->
  exists gw,
    getCurrentGameweek events = Some gw
    /\ In gw events
    /\ (first_with Event.is_next events gw
        \/ (none_with Event.is_next events
            /\ first_with Event.is_current events gw)
        \/ (none_with Event.is_next events
            /\ none_with Event.is_current events
            /\ first_with unfinished events gw)
        \/ (none_with Event.is_next events
            /\ none_with Event.is_current events
            /\ none_with unfinished events
            /\ exists earlier, events = earlier ++ [gw])).
Proof.
  intros Hne. unfold getCurrentGameweek.
  destruct (List.find Event.is_next events) as [gw|] eqn:Enext.
  { apply find_first_with in Enext. exists gw.
    repeat split; [now apply first_with_In in Enext|now left]. }
  apply find_none_with in Enext.
  destruct (List.find Event.is_current events) as [gw|] eqn:Ecur.
  { apply find_first_with in Ecur. exists gw.
    repeat split; [now apply first_with_In in Ecur|right; left; now split]. }
  apply find_none_with in Ecur.
  change (fun e => negb (Event.finished e)) with unfinished.
  destruct (List.find unfinished events) as [gw|] eqn:Eunf; simpl.
  { apply find_first_with in Eunf. exists gw.
    repeat split; [now apply first_with_In in Eunf|].
    right; right; left. now repeat split. }
  apply find_none_with in Eunf.
  destruct (last_element_nonempty events Hne) as (l1 & gw & E & ->).
  exists gw. repeat split.
  - rewrite E. apply in_or_app. right. now left.
  - right; right; right. repeat split; try assumption. now exists l1.
Qed.

Lemma getCurrentGameweek_priority_witness :
  [gw_current_1; gw_next_2] <> []
  /\ exists gw,
       getCurrentGameweek [gw_current_1; gw_next_2] = Some gw
       /\ In gw [gw_current_1; gw_next_2]
       /\ (first_with Event.is_next [gw_current_1; gw_next_2] gw
           \/ (none_with Event.is_next [gw_current_1; gw_next_2]
               /\ first_with Event.is_current [gw_current_1; gw_next_2] gw)
           \/ (none_with Event.is_next [gw_current_1; gw_next_2]
               /\ none_with Event.is_current [gw_current_1; gw_next_2]
               /\ first_with unfinished [gw_current_1; gw_next_2] gw)
           \/ (none_with Event.is_next [gw_current_1; gw_next_2]
               /\ none_with Event.is_current [gw_current_1; gw_next_2]
               /\ none_with unfinished [gw_current_1; gw_next_2]
               /\ exists earlier,
                    [gw_current_1; gw_next_2] = earlier ++ [gw])).
Proof.
  split; [discriminate|].
  apply (getCurrentGameweek_priority [gw_current_1; gw_next_2]).
  discriminate.
Defined.

(** The four cases of the specification. *)
Example selector_prefers_next :
  getCurrentGameweek [gw_current_1; gw_next_2] = Some gw_next_2.
Proof. reflexivity. Qed.

Example selector_falls_back_to_current :
  getCurrentGameweek [gw_current_1] = Some gw_current_1.
Proof. reflexivity. Qed.

Example selector_falls_back_to_unfinished :
  getCurrentGameweek [gw_finished_1; gw_open_2] = Some gw_open_2.
Proof. reflexivity. Qed.

Example selector_falls_back_to_last :
  getCurrentGameweek [gw_finished_1; gw_finished_2] = Some gw_finished_2.
Proof. reflexivity. Qed.

Lemma last_element_In {A : Type} (l : list A) (x : A) :
  last_element l = Some x -> In x l.
Proof. unfold last_element. apply nth_error_In. Qed.

Lemma getCurrentGameweek_In (events : list Event.t) (gw : Event.t) :
  getCurrentGameweek events = Some gw -> In gw events.
Proof.
  unfold getCurrentGameweek.
  destruct (List.find Event.is_next events) as [g|] eqn:Enext.
  { intros [= <-]. now apply List.find_some in Enext. }
  destruct (List.find Event.is_current events) as [g|] eqn:Ecur.
  { intros [= <-]. now apply List.find_some in Ecur. }
  destruct (List.find (fun e => negb (Event.finished e)) events)
    as [g|] eqn:Eunf; simpl.
  { intros [= <-]. now apply List.find_some in Eunf. }
  apply last_element_In.
Qed.

Lemma getCurrentGameweek_None (events : list Event.t) :
  getCurrentGameweek events = None <-> events = [].
Proof.
  split; [|intros ->; reflexivity].
  unfold getCurrentGameweek.
  destruct (List.find Event.is_next events); [discriminate|].
  destruct (List.find Event.is_current events); [discriminate|].
  destruct (List.find (fun e => negb (Event.finished e)) events);
    [discriminate|].
  simpl. apply last_element_empty.
Qed.

(** C2, as stated by the specification, fails: on the empty list the
    selector returns [undefined] without raising anything, and the error
    the build then ends with is a [TypeError]. *)
Lemma empty_gameweeks_no_EmptyDataSet :
  getCurrentGameweek [] = None
  /\ buildHTML utc empty_data = Throw "TypeError"
  /\ "TypeError"%string <> "EmptyDataSet"%string.
Proof. repeat split. discriminate. Qed.

(** C2, amended. The selector returns [undefined] exactly on the empty
    list and raises no error of its own; on a non-empty list it returns a
    gameweek of the list.  [buildHTML] fails exactly when the list is
    empty, with a [TypeError]. *)
Theorem getCurrentGameweek_undefined_iff_empty :
  (forall events, getCurrentGameweek events = None <-> events = [])
  /\ (forall events gw, getCurrentGameweek events = Some gw -> In gw events)
  /\ (forall tza data,
        match buildHTML tza data with
        | Throw name =>
            name = "TypeError"%string /\ events (bootstrap data) = []
        | Normal v =>
            getCurrentGameweek (events (bootstrap data))
            = Some (v_currentGW v)
            /\ In (v_currentGW v) (events (bootstrap data))
        end).
Proof.
  split; [exact getCurrentGameweek_None|].
  split; [exact getCurrentGameweek_In|].
  intros tza data. unfold buildHTML.
  destruct (getCurrentGameweek (events (bootstrap data))) as [gw|] eqn:E.
  - simpl. split; [reflexivity|now apply getCurrentGameweek_In].
  - split; [reflexivity|now apply getCurrentGameweek_None].
Qed.

(** ** Fixture grouping *)

Lemma add_key_In (seen : list Z) (k x : Z) :
  In x (add_key seen k) <-> In x seen \/ x = k.
Proof.
  unfold add_key. destruct (existsb (Z.eqb k) seen) eqn:E.
  - split; [now left|]. intros [H| ->]; [exact H|].
    apply existsb_exists in E as (y & Hy & Hky).
    apply Z.eqb_eq in Hky. now subst.
  - rewrite in_app_iff. simpl. intuition congruence.
Qed.

Lemma add_key_NoDup (seen : list Z) (k : Z) :
  NoDup seen -> NoDup (add_key seen k).
Proof.
  intros H. unfold add_key. destruct (existsb (Z.eqb k) seen) eqn:E.
  - exact H.
  - apply NoDup_ListNoDup, List.NoDup_app; repeat split.
    + now apply NoDup_ListNoDup.
    + repeat constructor. intros [].
    + intros x Hx [<-|[]].
      assert (Hex : existsb (Z.eqb k) seen = true)
        by (apply existsb_exists; exists k; split;
            [exact Hx|apply Z.eqb_refl]).
      congruence.
Qed.

Lemma add_key_cons_ne (k0 k : Z) (seen : list Z) :
  k0 <> k -> add_key (k0 :: seen) k = k0 :: add_key seen k.
Proof.
  intros H. unfold add_key. simpl.
  destruct (Z.eqb_spec k k0) as [->|_]; [congruence|]. simpl.
  now destruct (existsb (Z.eqb k) seen).
Qed.

Lemma add_key_present (k : Z) (seen : list Z) :
  In k seen -> add_key seen k = seen.
Proof.
  intros H. unfold add_key.
  assert (E : existsb (Z.eqb k) seen = true)
    by (apply existsb_exists; exists k; split;
        [exact H|apply Z.eqb_refl]).
  now rewrite E.
Qed.

Lemma first_keys_snoc (ks : list Z) (k : Z) :
  first_keys (ks ++ [k]) = add_key (first_keys ks) k.
Proof. unfold first_keys. now rewrite fold_left_app. Qed.

Lemma first_keys_In (ks : list Z) (x : Z) :
  In x (first_keys ks) <-> In x ks.
Proof.
  induction ks as [|k ks IH] using rev_ind; [reflexivity|].
  rewrite first_keys_snoc, add_key_In, IH, in_app_iff. simpl.
  intuition congruence.
Qed.

Lemma first_keys_NoDup (ks : list Z) : NoDup (first_keys ks).
Proof.
  induction ks as [|k ks IH] using rev_ind; [constructor|].
  rewrite first_keys_snoc. now apply add_key_NoDup.
Qed.

(** Keys that arrive in non-decreasing order are listed in increasing
    order. *)
Lemma first_keys_ascending (ks : list Z) :
  StronglySorted Z.le ks -> StronglySorted Z.lt (first_keys ks).
Proof.
  induction ks as [|k ks IH] using rev_ind; [constructor|].
  intros HS. apply StronglySorted_app in HS as (Hle & Hks & _).
  rewrite first_keys_snoc. unfold add_key.
  destruct (existsb (Z.eqb k) (first_keys ks)) eqn:E; [now apply IH|].
  apply StronglySorted_app. split; [|split].
  - intros x y Hx Hy. apply list_elem_of_In in Hx.
    apply list_elem_of_singleton in Hy. subst y.
    assert (x <= k).
    { apply Hle; [|now apply list_elem_of_singleton].
      apply list_elem_of_In. now apply first_keys_In. }
    assert (x <> k).
    { intros ->.
      assert (existsb (Z.eqb k) (first_keys ks) = true)
        by (apply existsb_exists; exists k; split;
            [exact Hx|apply Z.eqb_refl]).
      congruence. }
    lia.
  - now apply IH.
  - repeat constructor.
Qed.

Lemma push_fixture_concat (d : Z) (f : Fixture.t)
    (obj : list (Z * list Fixture.t)) :
  Permutation (concat (map snd (push_fixture d f obj)))
              (concat (map snd obj) ++ [f]).
Proof.
  induction obj as [|[d0 fs] rest IH]; simpl; [reflexivity|].
  destruct (d0 =? d); simpl.
  - rewrite <- !app_assoc. apply Permutation_app_head.
    apply Permutation_app_comm.
  - rewrite IH. now rewrite app_assoc.
Qed.

Lemma group_by_date_concat (tza : Z -> Z) (l : list Fixture.t) :
  Permutation (concat (map snd (group_by_date tza l))) l.
Proof.
  unfold group_by_date.
  enough (H : forall acc,
             Permutation
               (concat (map snd
                  (fold_left (fun obj f => push_fixture (date_of tza f) f obj)
                             l acc)))
               (concat (map snd acc) ++ l)) by apply (H []).
  induction l as [|f l IH]; intros acc; simpl.
  - now rewrite app_nil_r.
  - rewrite IH, push_fixture_concat, <- app_assoc. reflexivity.
Qed.

Lemma sort_days_concat (obj : list (Z * list Fixture.t)) :
  Permutation (concat (map snd (sort_days obj))) (concat (map snd obj)).
Proof.
  induction obj as [|[d fs] rest IH]; simpl; [reflexivity|].
  apply Permutation_app; [apply sort_perm|exact IH].
Qed.

(** One callback step, on an object whose properties are given by [g]. *)
Lemma push_fixture_map (d : Z) (f : Fixture.t) (g : Z -> list Fixture.t)
    (keys : list Z) :
  NoDup keys ->
  (~ In d keys -> g d = []) ->
  push_fixture d f (map (fun k => (k, g k)) keys)
  = map (fun k => (k, g k ++ (if d =? k then [f] else [])))
        (add_key keys d).
Proof.
  induction keys as [|k0 keys IH]; intros Hnd Hg.
  - simpl. rewrite Z.eqb_refl, Hg; [reflexivity|intros []].
  - apply NoDup_cons in Hnd as [Hk0 Hnd]. cbn [map push_fixture].
    destruct (Z.eqb_spec k0 d) as [->|Hne].
    + rewrite add_key_present by now left.
      cbn [map]. rewrite Z.eqb_refl. f_equal.
      apply map_ext_in. intros k Hk.
      destruct (Z.eqb_spec d k) as [->|_].
      * exfalso. apply Hk0. now apply list_elem_of_In.
      * now rewrite app_nil_r.
    + rewrite add_key_cons_ne by exact Hne. cbn [map].
      destruct (Z.eqb_spec d k0) as [->|_]; [congruence|].
      rewrite app_nil_r. f_equal. apply IH; [exact Hnd|].
      intros Hd. apply Hg. intros [E|Hin]; [congruence|now apply Hd].
Qed.

Lemma on_day_snoc (tza : Z -> Z) (d : Z) (l : list Fixture.t)
    (f : Fixture.t) :
  on_day tza d (l ++ [f])
  = on_day tza d l ++ (if date_of tza f =? d then [f] else []).
Proof.
  unfold on_day. rewrite List.filter_app. simpl.
  now destruct (date_of tza f =? d).
Qed.

Lemma on_day_absent (tza : Z -> Z) (d : Z) (l : list Fixture.t) :
  ~ In d (map (date_of tza) l) -> on_day tza d l = [].
Proof.
  intros H. unfold on_day.
  induction l as [|f l IH]; simpl; [reflexivity|].
  destruct (Z.eqb_spec (date_of tza f) d) as [E|_].
  - exfalso. apply H. now left.
  - apply IH. intros Hin. apply H. now right.
Qed.

(** The object built by the [forEach]: one property per local day, in the
    order the days first occur, holding that day's fixtures in input
    order. *)
Lemma group_by_date_closed (tza : Z -> Z) (l : list Fixture.t) :
  group_by_date tza l
  = map (fun d => (d, on_day tza d l)) (first_keys (map (date_of tza) l)).
Proof.
  unfold group_by_date.
  induction l as [|f l IH] using rev_ind; [reflexivity|].
  rewrite fold_left_app, IH. cbn [fold_left].
  rewrite push_fixture_map.
  - rewrite map_app. cbn [map]. rewrite first_keys_snoc.
    apply map_ext. intros d. now rewrite on_day_snoc.
  - apply first_keys_NoDup.
  - intros H. apply on_day_absent. intros Hin. apply H.
    now apply first_keys_In.
Qed.

Lemma fixturesByDate_closed (tza : Z -> Z) (fixtures : list Fixture.t)
    (gw : Z) :
  fixturesByDate tza fixtures gw
  = map (fun d => (d, sort by_kickoff
                        (on_day tza d (List.filter (in_gameweek gw) fixtures))))
        (first_keys
           (map (date_of tza) (List.filter (in_gameweek gw) fixtures))).
Proof.
  unfold fixturesByDate, sort_days.
  rewrite group_by_date_closed, map_map. reflexivity.
Qed.

Lemma in_gameweek_event (gw : Z) (f : Fixture.t) :
  in_gameweek gw f = true <-> Fixture.event f = Some gw.
Proof.
  unfold in_gameweek. destruct (Fixture.event f) as [e|].
  - rewrite Z.eqb_eq. split; congruence.
  - split; discriminate.
Qed.

Lemma sort_by_kickoff_sorted (l : list Fixture.t) :
  StronglySorted
    (fun a b => Fixture.kickoff_time a <= Fixture.kickoff_time b)
    (sort by_kickoff l).
Proof.
  apply StronglySorted_weaken
    with (R := fun x y => - Fixture.kickoff_time y
                          <= - Fixture.kickoff_time x).
  - intros; lia.
  - apply (sort_desc by_kickoff (fun f => - Fixture.kickoff_time f)).
    apply after_by_kickoff.
Qed.

Lemma sort_by_kickoff_stable (t : Z) (l : list Fixture.t) :
  List.filter (fun f => Fixture.kickoff_time f =? t) (sort by_kickoff l)
  = List.filter (fun f => Fixture.kickoff_time f =? t) l.
Proof.
  apply sort_stable. intros x y _ _ Hx Hy.
  rewrite after_by_kickoff, Z.gtb_ltb, Z.ltb_ge. lia.
Qed.

(** C3, as stated by the specification, fails: the groups come in the
    order their dates first occur in the input, here Sunday before
    Saturday. *)
Lemma groups_not_ordered_by_date :
  map fst (fixturesByDate utc [fx_sunday; fx_saturday] 1) = [20317; 20316]
  /\ ~ StronglySorted Z.le
       (map fst (fixturesByDate utc [fx_sunday; fx_saturday] 1)).
Proof.
  split; [reflexivity|].
  intros H. apply StronglySorted_inv in H as [_ H].
  apply Forall_inv in H. vm_compute in H. now apply H.
Qed.

(** C3, amended. The groups hold exactly the fixtures whose [event] is the
    reference id, split by date key; each group is sorted ascending by
    kick-off and none is empty, so an empty selection gives an empty
    object.  The groups are listed in the order in which their dates
    first occur among the selected fixtures, which is ascending when the
    selected fixtures arrive in non-decreasing date order. *)
Theorem fixturesByDate_groups (tza : Z -> Z) (fixtures : list Fixture.t)
    (gw : Z) :
  let selected := List.filter (in_gameweek gw) fixtures in
  let groups := fixturesByDate tza fixtures gw in
  Permutation (concat (map snd groups)) selected
  /\ (forall f, In f selected <-> In f fixtures /\ Fixture.event f = Some gw)
  /\ map fst groups = first_keys (map (date_of tza) selected)
  /\ NoDup (map fst groups)
  /\ (forall d dayFixtures,
        In (d, dayFixtures) groups ->
        dayFixtures <> []
        /\ Permutation dayFixtures (on_day tza d selected)
        /\ StronglySorted
             (fun a b => Fixture.kickoff_time a <= Fixture.kickoff_time b)
             dayFixtures)
  /\ (selected = [] -> groups = [])
  /\ (StronglySorted Z.le (map (date_of tza) selected) ->
      StronglySorted Z.lt (map fst groups)).
Proof.
  intros selected groups.
  assert (Hkeys : map fst groups
                  = first_keys (map (date_of tza) selected)).
  { unfold groups. rewrite fixturesByDate_closed, map_map. simpl.
    apply map_id. }
  split; [|split; [|split; [|split; [|split; [|split]]]]].
  - unfold groups, fixturesByDate.
    rewrite sort_days_concat. apply group_by_date_concat.
  - intros f. unfold selected.
    now rewrite List.filter_In, in_gameweek_event.
  - exact Hkeys.
  - rewrite Hkeys. apply first_keys_NoDup.
  - intros d dayFixtures Hin. unfold groups in Hin.
    rewrite fixturesByDate_closed in Hin.
    apply in_map_iff in Hin as (d' & [= <- <-] & Hd).
    fold selected in Hd |- *.
    apply first_keys_In, in_map_iff in Hd as (f & Hf & Hsel).
    split; [|split].
    + intros E.
      assert (Hin : In f (sort by_kickoff (on_day tza d' selected))).
      { apply sort_In. unfold on_day. apply List.filter_In.
        split; [exact Hsel|now apply Z.eqb_eq]. }
      rewrite E in Hin. destruct Hin.
    + apply sort_perm.
    + apply sort_by_kickoff_sorted.
  - intros E. unfold groups, fixturesByDate. fold selected.
    now rewrite E.
  - intros HS. rewrite Hkeys. now apply first_keys_ascending.
Qed.

(** ** The date key and the machine's time zone *)

Lemma Day_spec (t d : Z) :
  Day t = d <-> d * msPerDay <= t < (d + 1) * msPerDay.
Proof.
  unfold Day, msPerDay. split.
  - intros <-.
    pose proof (Z.div_mod t 86400000 ltac:(lia)).
    pose proof (Z.mod_pos_bound t 86400000 ltac:(lia)). lia.
  - intros H. symmetry. apply (Z.div_unique t 86400000 d (t - d * 86400000));
      lia.
Qed.

Lemma group_by_date_ext (tza1 tza2 : Z -> Z) (l : list Fixture.t) :
  (forall f, In f l -> date_of tza1 f = date_of tza2 f) ->
  group_by_date tza1 l = group_by_date tza2 l.
Proof.
  unfold group_by_date. generalize (@nil (Z * list Fixture.t)).
  induction l as [|f l IH]; intros acc H; simpl; [reflexivity|].
  rewrite (H f) by now left. apply IH. intros g Hg. apply H. now right.
Qed.

(** C4, as stated by the specification, fails: two kick-offs late on the
    same UTC day share a group on a machine in UTC and fall into two
    groups on a machine one hour ahead. *)
Lemma grouping_depends_on_machine_time_zone :
  fixturesByDate utc [fx_late; fx_later] 1
  = [(20316, [fx_late; fx_later])]
  /\ fixturesByDate bst [fx_late; fx_later] 1
     = [(20316, [fx_late]); (20317, [fx_later])]
  /\ fixturesByDate utc [fx_late; fx_later] 1
     <> fixturesByDate bst [fx_late; fx_later] 1.
Proof. repeat split. discriminate. Qed.

(** C4, amended. The date key is the calendar day of the kick-off in the
    local time of the executing machine, whatever the time of day, so it
    is a function of the kick-off instant and of the machine's time zone
    offset at that instant: two runs whose machines have the same offset
    at every kick-off produce the same grouping, and a machine in UTC
    groups by UTC day. *)
Theorem date_key_is_local_day :
  (forall tza f d,
      date_of tza f = d
      <-> d * msPerDay
          <= Fixture.kickoff_time f + tza (Fixture.kickoff_time f)
          < (d + 1) * msPerDay)
  /\ (forall tza1 tza2 fixtures gw,
        (forall f, In f fixtures ->
                   tza1 (Fixture.kickoff_time f)
                   = tza2 (Fixture.kickoff_time f)) ->
        fixturesByDate tza1 fixtures gw = fixturesByDate tza2 fixtures gw)
  /\ (forall f, date_of utc f = Fixture.kickoff_time f / msPerDay).
Proof.
  split; [|split].
  - intros tza f d. unfold date_of, toDateString, LocalTime.
    apply Day_spec.
  - intros tza1 tza2 fixtures gw H. unfold fixturesByDate. f_equal.
    apply group_by_date_ext. intros f Hf.
    apply List.filter_In in Hf as [Hf _].
    unfold date_of, toDateString, LocalTime. now rewrite (H f Hf).
  - intros f. unfold date_of, toDateString, LocalTime, Day, utc.
    now rewrite Z.add_0_r.
Qed.

(** ** Stability *)

Lemma slice_sort_ties {A : Type} (comparefn : A -> A -> number)
    (same_key : A -> bool) (limit : nat) (l : list A) :
  List.filter same_key (sort comparefn l) = List.filter same_key l ->
  ties_in_input_order same_key l (slice 0 limit (sort comparefn l)).
Proof.
  intros H. rewrite slice_0.
  destruct (filter_firstn_prefix same_key limit (sort comparefn l))
    as [rest E].
  exists rest. now rewrite <- H.
Qed.

(** C6. Every sort of the pipeline keeps entries with equal keys in input
    order: within a day's group, the fixtures with a given kick-off are
    those of the input in input order; in each ranking, the players with a
    given key value are the first such players of the (filtered) input,
    in input order. *)
Theorem sorts_are_stable :
  (forall tza fixtures gw d dayFixtures t,
      In (d, dayFixtures) (fixturesByDate tza fixtures gw) ->
      List.filter (fun f => Fixture.kickoff_time f =? t) dayFixtures
      = List.filter (fun f => Fixture.kickoff_time f =? t)
          (on_day tza d (List.filter (in_gameweek gw) fixtures)))
  /\ (forall players k,
        ties_in_input_order
          (fun p => Element.transfers_in_event p =? k)
          players (topTransfersIn players))
  /\ (forall players k,
        ties_in_input_order
          (fun p => Element.transfers_out_event p =? k)
          players (topTransfersOut players))
  /\ (forall players v,
        ties_in_input_order
          (fun p => num_eqb (form_value p) v)
          (List.filter form_filter players) (formPlayers players))
  /\ (forall players v,
        ties_in_input_order
          (fun p => num_eqb (ownership_value p) v)
          (List.filter injury_filter players) (injuries players))
  /\ (forall players k,
        ties_in_input_order
          (fun p => Element.cost_change_event p =? k)
          (List.filter riser_filter players) (priceRisers players))
  /\ (forall players k,
        ties_in_input_order
          (fun p => Element.cost_change_event p =? k)
          (List.filter faller_filter players) (priceFallers players)).
Proof.
  split; [|split; [|split; [|split; [|split; [|split]]]]].
  - intros tza fixtures gw d dayFixtures t Hin.
    rewrite fixturesByDate_closed in Hin.
    apply in_map_iff in Hin as (d' & [= <- <-] & _).
    apply sort_by_kickoff_stable.
  - intros players k. apply slice_sort_ties.
    apply (sort_key_stable by_transfers_in Element.transfers_in_event).
    apply after_by_transfers_in.
  - intros players k. apply slice_sort_ties.
    apply (sort_key_stable by_transfers_out Element.transfers_out_event).
    apply after_by_transfers_out.
  - intros players v. apply slice_sort_ties.
    apply (sort_num_key_stable by_form form_value), after_by_form.
  - intros players v. apply slice_sort_ties.
    apply (sort_num_key_stable by_ownership ownership_value).
    apply after_by_ownership.
  - intros players k. apply slice_sort_ties.
    apply (sort_key_stable by_cost_change_desc Element.cost_change_event).
    apply after_by_cost_change_desc.
  - intros players k. apply slice_sort_ties.
    apply sort_stable. intros x y _ _ Hx Hy.
    rewrite after_by_cost_change_asc, Z.gtb_ltb, Z.ltb_ge. lia.
Qed.

(** ** Numeric reading of the decimal-as-string fields *)

Lemma digit_cases (d : Z) :
  0 <= d <= 9 ->
  d = 0 \/ d = 1 \/ d = 2 \/ d = 3 \/ d = 4
  \/ d = 5 \/ d = 6 \/ d = 7 \/ d = 8 \/ d = 9.
Proof. lia. Qed.

Ltac each_digit H :=
  apply digit_cases in H;
  repeat (destruct H as [H|H]); subst.

Lemma digit_char_head (d : Z) (s : string) :
  0 <= d <= 9 ->
  is_digit (digit_char d) = true
  /\ digit_value (digit_char d) = d
  /\ trimStart (String (digit_char d) s) = String (digit_char d) s
  /\ take_sign (String (digit_char d) s) = (false, String (digit_char d) s)
  /\ String.prefix "Infinity" (String (digit_char d) s) = false.
Proof. intros H. each_digit H; repeat split. Qed.

Lemma take_digits_digits_string (ds : list Z) (rest : string) :
  decimal_digits ds ->
  match rest with
  | String c _ => is_digit c = false
  | EmptyString => True
  end ->
  take_digits (digits_string ds ++ rest) = (ds, rest).
Proof.
  intros Hds Hrest. induction Hds as [|d ds Hd _ IH]; simpl.
  - destruct rest as [|c r]; [reflexivity|]. simpl. now rewrite Hrest.
  - destruct (digit_char_head d EmptyString Hd) as (-> & -> & _).
    now rewrite IH.
Qed.

Lemma append_empty_r (s : string) : (s ++ EmptyString)%string = s.
Proof. induction s as [|c s IH]; simpl; [reflexivity|now rewrite IH]. Qed.

(** A decimal numeral reads as the binary64 value nearest to the rational
    it denotes. *)
Lemma parseFloat_decimal (ip fp : list Z) :
  ip <> [] -> decimal_digits ip -> decimal_digits fp ->
  parseFloat (decimal_string ip fp) = binary64 (decimal_value ip fp).
Proof.
  intros Hne Hip Hfp.
  pose proof (take_digits_digits_string ip
                (String "." (digits_string fp)) Hip eq_refl) as E1.
  pose proof (take_digits_digits_string fp EmptyString Hfp I) as E2.
  rewrite append_empty_r in E2.
  destruct ip as [|d ip]; [congruence|].
  apply Forall_cons_iff in Hip as [Hd _].
  unfold decimal_string, decimal_value, parseFloat.
  cbn [digits_string String.append] in E1 |- *.
  destruct (digit_char_head d
              (digits_string ip ++ String "." (digits_string fp)) Hd)
    as (_ & _ & -> & -> & ->).
  rewrite E1, E2. reflexivity.
Qed.

(** The reading at the edges of binary64: a numeral closer to 2 than to
    the next value reads as 2, one below half the least positive value
    reads as 0, one beyond the largest value reads as [Infinity], an
    integer half way between two values reads as the even one; a leading
    no-break space is skipped. *)
Example parseFloat_rounds :
  num_eqb (parseFloat "2.0000000000000001") (num_of_Z 2) = true
  /\ num_eqb (parseFloat "2.0000000000000003") (num_of_Z 2) = false
  /\ num_eqb (parseFloat "1e-400") (num_of_Z 0) = true
  /\ parseFloat "1e400" = PosInfinity
  /\ num_eqb (parseFloat "9007199254740993") (num_of_Z 9007199254740992)
     = true
  /\ num_eqb (parseFloat (String "194" (String "160" "2.5")))
             (parseFloat "2.5") = true.
Proof. vm_compute. repeat split. Qed.

Lemma num_gt_exceeds (x : number) (c : Z) :
  num_gt x (num_of_Z c) = true <-> num_exceeds x (inject_Z c).
Proof.
  destruct x as [| |q|]; simpl; try (split; [discriminate|tauto]).
  - apply Qgtb_true.
  - tauto.
Qed.

Lemma form_filter_decimal (p : Element.t) :
  form_filter p = true
  <-> num_exceeds (ownership_value p) 2 /\ num_exceeds (form_value p) 0.
Proof.
  unfold form_filter. rewrite andb_true_iff.
  now rewrite !num_gt_exceeds.
Qed.

Lemma formPlayers_In (players : list Element.t) (p : Element.t) :
  In p (formPlayers players) -> In p players /\ form_filter p = true.
Proof.
  unfold formPlayers. rewrite slice_0. intros H.
  apply List.filter_In, (sort_In by_form).
  rewrite <- (firstn_skipn 5 (sort by_form _)).
  apply in_or_app. now left.
Qed.

(** C7, as stated by the specification, fails, twice over.  A numeral is
    read as the nearest binary64 value: an ownership of
    2.0000000000000001 is greater than 2.0 as a decimal, reads as 2, and
    is left out.  And the list stops at five: a sixth player with
    ownership 2.5 and form 3.0 is left out behind five players in better
    form. *)
Lemma formPlayers_not_decimal_iff :
  (Element.selected_by_percent p_owned_close
   = decimal_string [2] [0; 0; 0; 0; 0; 0; 0; 0; 0; 0; 0; 0; 0; 0; 0; 1]
   /\ Qlt (inject_Z 2)
         (decimal_value [2] [0; 0; 0; 0; 0; 0; 0; 0; 0; 0; 0; 0; 0; 0; 0; 1])
   /\ Element.form p_owned_close = decimal_string [3] [0]
   /\ Qlt (inject_Z 0) (decimal_value [3] [0])
   /\ formPlayers [p_owned_close] = [])
  /\ (In p_sixth (crowd ++ [p_sixth])
      /\ Element.selected_by_percent p_sixth = decimal_string [2] [5]
      /\ Qlt (inject_Z 2) (decimal_value [2] [5])
      /\ Element.form p_sixth = decimal_string [3] [0]
      /\ Qlt (inject_Z 0) (decimal_value [3] [0])
      /\ ~ In p_sixth (formPlayers (crowd ++ [p_sixth]))).
Proof.
  split.
  - repeat split.
  - split; [do 5 right; now left|]. repeat split.
    intros H. vm_compute in H.
    repeat (destruct H as [H|H]; [discriminate|]). exact H.
Qed.

(** C7, amended. A player passes the filter of [formPlayers] exactly when
    the number read from [selected_by_percent] is greater than 2 and the
    number read from [form] is greater than 0.  The number read from a
    decimal numeral is the binary64 value nearest to it, so the
    comparison is numeric and not between texts, and a numeral within
    rounding distance of a bound reads as the bound.  Only players that
    pass are listed, at most five of them, and all of them when at most
    five pass.  Ownership 2.5 with form 3.0 is listed, ownership 2.0 is
    not, and ownership 10.0 is listed although its text sorts before the
    text of 2. *)
Theorem formPlayers_decimal_filter :
  (forall p,
      form_filter p = true
      <-> num_exceeds (ownership_value p) 2
          /\ num_exceeds (form_value p) 0)
  /\ (forall ip fp,
        ip <> [] -> decimal_digits ip -> decimal_digits fp ->
        parseFloat (decimal_string ip fp) = binary64 (decimal_value ip fp))
  /\ (forall players p,
        In p (formPlayers players) ->
        In p players /\ form_filter p = true)
  /\ (forall players, (length (formPlayers players) <= 5)%nat)
  /\ (forall players p,
        (length (List.filter form_filter players) <= 5)%nat ->
        In p players -> form_filter p = true ->
        In p (formPlayers players))
  /\ formPlayers [p_owned_2_5] = [p_owned_2_5]
  /\ formPlayers [p_owned_2_0] = []
  /\ formPlayers [p_owned_10] = [p_owned_10].
Proof.
  split; [exact form_filter_decimal|].
  split; [exact parseFloat_decimal|].
  split; [exact formPlayers_In|].
  split; [|split; [|repeat split]].
  - intros players. unfold formPlayers. rewrite slice_0.
    rewrite List.length_firstn. lia.
  - intros players p Hlen Hin Hp. unfold formPlayers.
    rewrite slice_0, firstn_all2 by now rewrite sort_length.
    apply sort_In, List.filter_In. now split.
Qed.

(** ** Rankings under a change of the players' other fields *)

Lemma insert_sorted_map {A : Type} (comparefn : A -> A -> number)
    (g : A -> A) (x : A) (l : list A) :
  (forall y, In y l ->
             sorts_after comparefn (g x) (g y) = sorts_after comparefn x y) ->
  insert_sorted comparefn (g x) (map g l)
  = map g (insert_sorted comparefn x l).
Proof.
  induction l as [|y l IH]; intros H; simpl; [reflexivity|].
  rewrite (H y) by now left.
  destruct (sorts_after comparefn x y); simpl; [|reflexivity].
  rewrite IH; [reflexivity|]. intros z Hz. apply H. now right.
Qed.

Lemma sort_map {A : Type} (comparefn : A -> A -> number) (g : A -> A)
    (l : list A) :
  (forall x y, In x l -> In y l ->
               sorts_after comparefn (g x) (g y)
               = sorts_after comparefn x y) ->
  sort comparefn (map g l) = map g (sort comparefn l).
Proof.
  induction l as [|x l IH]; intros H; [reflexivity|].
  cbn [map sort foldr]. fold (sort comparefn (map g l)).
  fold (sort comparefn l).
  rewrite IH by (intros a b Ha Hb; apply H; now right).
  apply insert_sorted_map. intros y Hy.
  apply H; [now left|]. right. now apply (sort_In comparefn).
Qed.

Lemma filter_map_commute {A : Type} (pred : A -> bool) (g : A -> A)
    (l : list A) :
  (forall x, pred (g x) = pred x) ->
  List.filter pred (map g l) = map g (List.filter pred l).
Proof.
  intros H. induction l as [|x l IH]; simpl; [reflexivity|].
  rewrite H. destruct (pred x); simpl; now rewrite IH.
Qed.

Lemma rank_map (g : Element.t -> Element.t)
    (comparefn : Element.t -> Element.t -> number)
    (pred : Element.t -> bool) (limit : nat) (players : list Element.t) :
  (forall x, pred (g x) = pred x) ->
  (forall x y, pred x = true -> pred y = true ->
               sorts_after comparefn (g x) (g y)
               = sorts_after comparefn x y) ->
  slice 0 limit (sort comparefn (List.filter pred (map g players)))
  = map g (slice 0 limit (sort comparefn (List.filter pred players))).
Proof.
  intros Hpred Hcmp. rewrite !slice_0, filter_map_commute by exact Hpred.
  rewrite sort_map, firstn_map; [reflexivity|].
  intros x y Hx Hy. apply List.filter_In in Hx as [_ Hx].
  apply List.filter_In in Hy as [_ Hy]. now apply Hcmp.
Qed.

Lemma rank_map_unfiltered (g : Element.t -> Element.t)
    (comparefn : Element.t -> Element.t -> number) (limit : nat)
    (players : list Element.t) :
  (forall x y, sorts_after comparefn (g x) (g y)
               = sorts_after comparefn x y) ->
  slice 0 limit (sort comparefn (map g players))
  = map g (slice 0 limit (sort comparefn players)).
Proof.
  intros Hcmp.
  rewrite <- (filter_no_filter (map g players)).
  rewrite <- (filter_no_filter players) at 2.
  apply rank_map; [reflexivity|]. intros x y _ _. apply Hcmp.
Qed.

(** The rankings compare and filter on status, ownership, form, transfer
    counts and price change only. *)
Lemma commutes_with_intro (g : Element.t -> Element.t) :
  (forall x, Element.transfers_in_event (g x) = Element.transfers_in_event x) ->
  (forall x, Element.transfers_out_event (g x)
             = Element.transfers_out_event x) ->
  (forall x, Element.cost_change_event (g x) = Element.cost_change_event x) ->
  (forall x, form_filter (g x) = form_filter x) ->
  (forall x, injury_filter (g x) = injury_filter x) ->
  (forall x, form_filter x = true -> form_value (g x) = form_value x) ->
  (forall x, injury_filter x = true ->
             ownership_value (g x) = ownership_value x) ->
  all_rankings (commutes_with g).
Proof.
  intros Hin Hout Hcost Hff Hif Hfv Hov.
  unfold all_rankings, commutes_with.
  split; [|split; [|split; [|split; [|split]]]]; intros players.
  - apply rank_map_unfiltered. intros x y.
    now rewrite !after_by_transfers_in, !Hin.
  - apply rank_map_unfiltered. intros x y.
    now rewrite !after_by_transfers_out, !Hout.
  - apply rank_map; [exact Hff|]. intros x y Hx Hy.
    now rewrite !after_by_form, !Hfv.
  - apply rank_map; [exact Hif|]. intros x y Hx Hy.
    now rewrite !after_by_ownership, !Hov.
  - apply rank_map.
    + intros x. unfold riser_filter. now rewrite Hcost.
    + intros x y _ _. now rewrite !after_by_cost_change_desc, !Hcost.
  - apply rank_map.
    + intros x. unfold faller_filter. now rewrite Hcost.
    + intros x y _ _. now rewrite !after_by_cost_change_asc, !Hcost.
Qed.

Lemma buildHTML_completes (tza : Z -> Z) (data : Data) :
  events (bootstrap data) <> [] -> exists v, buildHTML tza data = Normal v.
Proof.
  intros H. unfold buildHTML.
  destruct (getCurrentGameweek (events (bootstrap data))) eqn:E.
  - eexists. reflexivity.
  - now apply getCurrentGameweek_None in E.
Qed.

(** ** Fields that do not parse *)

Lemma zero_fails_every_filter :
  num_gt (parseFloat "0") (num_of_Z 0) = false
  /\ num_gt (parseFloat "0") (num_of_Z 2) = false
  /\ num_gt (parseFloat "0") (num_of_Z 3) = false.
Proof. repeat split. Qed.

Lemma zero_malformed_ownership (p : Element.t) :
  ownership_value (zero_malformed p)
  = if is_NaN (ownership_value p) then parseFloat "0"
    else ownership_value p.
Proof.
  unfold zero_malformed, ownership_value at 1. simpl.
  now destruct (is_NaN (ownership_value p)).
Qed.

Lemma zero_malformed_form (p : Element.t) :
  form_value (zero_malformed p)
  = if is_NaN (form_value p) then parseFloat "0" else form_value p.
Proof.
  unfold zero_malformed, form_value at 1. simpl.
  now destruct (is_NaN (form_value p)).
Qed.

Lemma form_filter_zero_malformed (p : Element.t) :
  form_filter (zero_malformed p) = form_filter p.
Proof.
  destruct zero_fails_every_filter as (Z0 & Z2 & _).
  unfold form_filter.
  change (parseFloat (Element.selected_by_percent (zero_malformed p)))
    with (ownership_value (zero_malformed p)).
  change (parseFloat (Element.form (zero_malformed p)))
    with (form_value (zero_malformed p)).
  change (parseFloat (Element.selected_by_percent p))
    with (ownership_value p).
  change (parseFloat (Element.form p)) with (form_value p).
  rewrite zero_malformed_ownership, zero_malformed_form.
  destruct (ownership_value p), (form_value p); simpl;
    rewrite ?Z0, ?Z2, ?andb_false_r; reflexivity.
Qed.

Lemma injury_filter_zero_malformed (p : Element.t) :
  injury_filter (zero_malformed p) = injury_filter p.
Proof.
  destruct zero_fails_every_filter as (_ & _ & Z3).
  unfold injury_filter.
  change (parseFloat (Element.selected_by_percent (zero_malformed p)))
    with (ownership_value (zero_malformed p)).
  change (parseFloat (Element.selected_by_percent p))
    with (ownership_value p).
  rewrite zero_malformed_ownership.
  change (Element.status (zero_malformed p)) with (Element.status p).
  destruct (ownership_value p); simpl;
    rewrite ?Z3, ?andb_false_r; reflexivity.
Qed.

Lemma malformed_fails_form_filter (p : Element.t) :
  malformed p = true -> form_filter p = false.
Proof.
  unfold malformed, form_filter.
  change (parseFloat (Element.selected_by_percent p))
    with (ownership_value p).
  change (parseFloat (Element.form p)) with (form_value p).
  destruct (ownership_value p), (form_value p); simpl;
    rewrite ?andb_false_r; congruence.
Qed.

Lemma malformed_fails_injury_filter (p : Element.t) :
  is_NaN (ownership_value p) = true -> injury_filter p = false.
Proof.
  unfold injury_filter.
  change (parseFloat (Element.selected_by_percent p))
    with (ownership_value p).
  destruct (ownership_value p); simpl; rewrite ?andb_false_r; congruence.
Qed.

(** C8, as stated by the specification, fails: nothing reports a field
    that does not parse.  The build of a snapshot holding such a player
    returns exactly what it returns when the fields read zero, so no
    function of the result tells whether a malformed field occurred. *)
Lemma malformed_field_not_reported :
  existsb malformed (elements (bootstrap (data_with p_malformed))) = true
  /\ existsb malformed (elements (bootstrap (data_with p_zero))) = false
  /\ buildHTML utc (data_with p_malformed) = buildHTML utc (data_with p_zero)
  /\ ~ exists diagnostics : completion Views -> bool,
         forall data,
           diagnostics (buildHTML utc data)
           = existsb malformed (elements (bootstrap data)).
Proof.
  assert (E : buildHTML utc (data_with p_malformed)
              = buildHTML utc (data_with p_zero)) by reflexivity.
  split; [reflexivity|]. split; [reflexivity|]. split; [exact E|].
  intros [diagnostics H].
  pose proof (H (data_with p_malformed)) as H1.
  pose proof (H (data_with p_zero)) as H2.
  rewrite E, H2 in H1. vm_compute in H1. discriminate.
Qed.

(** C8, amended. A decimal-as-string field that does not parse reads as
    NaN, which fails every comparison of the filters: the player is
    filtered, and every ranking is computed, as if the field read zero.
    The occurrence is not reported.  It is not fatal: the build completes
    whenever there is a gameweek. *)
Theorem malformed_field_filters_as_zero :
  (forall p,
      form_filter (zero_malformed p) = form_filter p
      /\ injury_filter (zero_malformed p) = injury_filter p)
  /\ (forall p, malformed p = true -> form_filter p = false)
  /\ (forall p, is_NaN (ownership_value p) = true -> injury_filter p = false)
  /\ all_rankings (commutes_with zero_malformed)
  /\ (forall tza data,
        events (bootstrap data) <> [] ->
        exists v, buildHTML tza data = Normal v).
Proof.
  split; [|split; [|split; [|split]]].
  - intros p. split;
      [apply form_filter_zero_malformed|apply injury_filter_zero_malformed].
  - exact malformed_fails_form_filter.
  - exact malformed_fails_injury_filter.
  - apply commutes_with_intro; try reflexivity.
    + exact form_filter_zero_malformed.
    + exact injury_filter_zero_malformed.
    + intros x Hx. apply form_filter_value in Hx as [_ Hx].
      rewrite zero_malformed_form.
      destruct (form_value x); simpl in *; congruence.
    + intros x Hx. apply injury_filter_value in Hx as [_ Hx].
      rewrite zero_malformed_ownership.
      destruct (ownership_value x); simpl in *; congruence.
  - exact buildHTML_completes.
Qed.

(** ** Codes outside the closed sets *)

Lemma statusEmoji_None (s : string) :
  statusEmoji s = None <-> ~ known_status s /\ ~ In s Object_prototype.
Proof.
  unfold statusEmoji, known_status.
  destruct (String.eqb_spec s "a"); [split; [discriminate|tauto]|].
  destruct (String.eqb_spec s "d"); [split; [discriminate|tauto]|].
  destruct (String.eqb_spec s "i"); [split; [discriminate|tauto]|].
  destruct (String.eqb_spec s "s"); [split; [discriminate|tauto]|].
  destruct (String.eqb_spec s "u"); [split; [discriminate|tauto]|].
  destruct (existsb (String.eqb s) Object_prototype) eqn:E.
  - apply existsb_exists in E as (x & Hx & Hsx).
    apply String.eqb_eq in Hsx. subst x.
    split; [discriminate|tauto].
  - split; [|reflexivity]. intros _. split; [tauto|]. intros Hin.
    assert (existsb (String.eqb s) Object_prototype = true)
      by (apply existsb_exists; exists s; split;
          [exact Hin|apply String.eqb_refl]).
    congruence.
Qed.

Lemma statusEmoji_inherited (s : string) :
  In s Object_prototype -> statusEmoji s = Some (Inherited s).
Proof.
  intros H. simpl in H.
  repeat (destruct H as [<-|H]; [reflexivity|]). destruct H.
Qed.

Lemma injuries_In (players : list Element.t) (p : Element.t) :
  In p (injuries players) -> In p players /\ injury_filter p = true.
Proof.
  unfold injuries. rewrite slice_0. intros H.
  apply List.filter_In, (sort_In by_ownership).
  rewrite <- (firstn_skipn 8 (sort by_ownership _)).
  apply in_or_app. now left.
Qed.

Lemma injuries_all (players : list Element.t) (p : Element.t) :
  (length (List.filter injury_filter players) <= 8)%nat ->
  In p players -> injury_filter p = true -> In p (injuries players).
Proof.
  intros Hlen Hin Hp. unfold injuries.
  rewrite slice_0, firstn_all2 by now rewrite sort_length.
  apply sort_In, List.filter_In. now split.
Qed.

Lemma positionName_None (code : Z) :
  positionName code = None <-> ~ known_position code.
Proof.
  unfold positionName, known_position.
  destruct (Z.eqb_spec code 1); [split; [discriminate|lia]|].
  destruct (Z.eqb_spec code 2); [split; [discriminate|lia]|].
  destruct (Z.eqb_spec code 3); [split; [discriminate|lia]|].
  destruct (Z.eqb_spec code 4); [split; [discriminate|lia]|].
  split; [lia|reflexivity].
Qed.

Lemma injury_filter_decimal (p : Element.t) :
  injury_filter p = true
  <-> Element.status p <> "a"%string
      /\ num_exceeds (ownership_value p) 3.
Proof.
  unfold injury_filter.
  rewrite andb_true_iff, negb_true_iff, String.eqb_neq.
  now rewrite num_gt_exceeds.
Qed.

(** C9, as stated by the specification, fails: a player whose status is
    outside the closed set is listed among the availability risks. *)
Lemma unknown_status_not_excluded :
  ~ known_status (Element.status p_unknown_status)
  /\ injuries [p_unknown_status] = [p_unknown_status].
Proof.
  split; [|reflexivity].
  unfold known_status. simpl.
  intros [H|[H|[H|[H|H]]]]; discriminate.
Qed.

(** C9, amended. A status outside the closed set counts as any other
    status different from [a]: the player passes the filter of the
    availability risks when the ownership exceeds 3, and is then listed
    whenever at most eight players pass.  Such a player is shown with the
    fallback icon, unless the status is the name of a property that the
    table inherits from [Object.prototype], whose value is then shown in
    its place.  No ranking reads the position code, so a code outside
    1..4 changes no ranking; [positionName] has no entry for it.  Neither
    occurrence is reported, and neither is fatal: the build completes
    whenever there is a gameweek. *)
Theorem unknown_codes_are_tolerated :
  (forall p,
      injury_filter p = true
      <-> Element.status p <> "a"%string
          /\ num_exceeds (ownership_value p) 3)
  /\ (forall players p,
        In p (injuries players) -> In p players /\ injury_filter p = true)
  /\ (forall players p,
        (length (List.filter injury_filter players) <= 8)%nat ->
        In p players -> injury_filter p = true ->
        In p (injuries players))
  /\ (forall s,
        statusEmoji s = None
        <-> ~ known_status s /\ ~ In s Object_prototype)
  /\ (forall p,
        ~ known_status (Element.status p) ->
        ~ In (Element.status p) Object_prototype ->
        status_icon p = Icon QuestionMark)
  /\ (forall p,
        In (Element.status p) Object_prototype ->
        status_icon p = Inherited (Element.status p))
  /\ (forall code, positionName code = None <-> ~ known_position code)
  /\ (forall code, all_rankings (commutes_with (set_element_type code)))
  /\ (forall tza data,
        events (bootstrap data) <> [] ->
        exists v, buildHTML tza data = Normal v).
Proof.
  split; [exact injury_filter_decimal|].
  split; [exact injuries_In|].
  split; [exact injuries_all|].
  split; [exact statusEmoji_None|].
  split; [|split; [|split; [exact positionName_None|split]]].
  - intros p Hk Hi. unfold status_icon.
    now rewrite (proj2 (statusEmoji_None (Element.status p)) (conj Hk Hi)).
  - intros p Hi. unfold status_icon.
    now rewrite (statusEmoji_inherited _ Hi).
  - intros code. apply commutes_with_intro; reflexivity.
  - exact buildHTML_completes.
Qed.

(** ** The store model *)

Section HeapFacts.
Context {A : Type}.
Implicit Types (h k : list (list A)) (a : list A) (l : Store.loc).

Lemma read_app_l l h k :
  (l < length h)%nat -> Store.read l (h ++ k) = Store.read l h.
Proof. intros H. unfold Store.read. now rewrite lookup_app_l. Qed.

Lemma read_snoc h a : Store.read (length h) (h ++ [a]) = a.
Proof. unfold Store.read. now rewrite list_lookup_middle. Qed.

Lemma insert_snoc h a a' : <[length h := a']> (h ++ [a]) = h ++ [a'].
Proof.
  rewrite <- (Nat.add_0_r (length h)). now rewrite insert_app_r.
Qed.

Lemma read_insert_eq l h a :
  (l < length h)%nat -> Store.read l (<[l := a]> h) = a.
Proof. intros H. unfold Store.read. now rewrite list_lookup_insert_eq. Qed.

Lemma read_insert_ne l l' h a :
  l <> l' -> Store.read l' (<[l := a]> h) = Store.read l' h.
Proof. intros H. unfold Store.read. now rewrite list_lookup_insert_ne. Qed.

Lemma read_app_add h k (i : nat) :
  Store.read (length h + i) (h ++ k) = Store.read i k.
Proof.
  unfold Store.read. rewrite lookup_app_r by lia.
  now replace (length h + i - length h)%nat with i by lia.
Qed.

Lemma unchanged_app h k : Store.unchanged h (h ++ k).
Proof. intros l a H. now apply lookup_app_l_Some. Qed.

Lemma unchanged_refl h : Store.unchanged h h.
Proof. intros l a H. exact H. Qed.

Lemma unchanged_read l h h' :
  (l < length h)%nat -> Store.unchanged h h' ->
  Store.read l h' = Store.read l h.
Proof.
  intros Hl Hu. unfold Store.read.
  destruct (lookup_lt_is_Some_2 h l Hl) as [a Ha].
  rewrite (Hu l a Ha). now rewrite Ha.
Qed.
End HeapFacts.


Lemma bind_run {S X Y : Type} (m : Store.State S X) (f : X -> Store.State S Y)
    (s s' : S) (x : X) :
  m s = (x, s') -> (m ≫= f) s = f x s'.
Proof. intros H. unfold mbind, Store.State_bind. now rewrite H. Qed.

Section ArrayRuns.
Context {A : Type}.
Implicit Types (h : list (list A)) (a : list A) (l : nat).

Lemma spread_run l h :
  Store.spread l h = (length h, h ++ [Store.read l h]).
Proof. reflexivity. Qed.

Lemma filter_run (pred : A -> bool) l h :
  Store.Array_filter pred l h
  = (length h, h ++ [List.filter pred (Store.read l h)]).
Proof. reflexivity. Qed.

Lemma slice_run (s e : nat) l h :
  Store.Array_slice s e l h
  = (length h, h ++ [slice s e (Store.read l h)]).
Proof. reflexivity. Qed.

Lemma sort_run (comparefn : A -> A -> number) l h :
  Store.Array_sort comparefn l h
  = (l, <[l := sort comparefn (Store.read l h)]> h).
Proof. reflexivity. Qed.

Lemma push_run l (x : A) h :
  Store.Array_push l x h = (tt, <[l := Store.read l h ++ [x]]> h).
Proof. reflexivity. Qed.
End ArrayRuns.

Ltac heap_simpl :=
  repeat first
    [ rewrite read_snoc
    | rewrite insert_snoc
    | rewrite read_app_l by (rewrite ?length_app; simpl; lia) ].

Ltac run_with lem := erewrite bind_run by (apply lem); heap_simpl.

(** The rankings allocate their arrays past the end of the heap and sort
    only those; what they return refers to the values of the pure
    model. *)
Lemma rankings_run (players : nat) (h : list (list Element.t)) :
  (players < length h)%nat ->
  exists r extra,
    Store.rankings players h = (r, h ++ extra)
    /\ Store.read (Store.r_topTransfersIn r) (h ++ extra)
       = topTransfersIn (Store.read players h)
    /\ Store.read (Store.r_topTransfersOut r) (h ++ extra)
       = topTransfersOut (Store.read players h)
    /\ Store.read (Store.r_formPlayers r) (h ++ extra)
       = formPlayers (Store.read players h)
    /\ Store.read (Store.r_injuries r) (h ++ extra)
       = injuries (Store.read players h)
    /\ Store.read (Store.r_priceRisers r) (h ++ extra)
       = priceRisers (Store.read players h)
    /\ Store.read (Store.r_priceFallers r) (h ++ extra)
       = priceFallers (Store.read players h).
Proof.
  intros Hp. unfold Store.rankings.
  run_with @spread_run. run_with @sort_run. run_with @slice_run.
  run_with @spread_run. run_with @sort_run. run_with @slice_run.
  run_with @spread_run. run_with @filter_run. run_with @sort_run.
  run_with @slice_run.
  run_with @filter_run. run_with @sort_run. run_with @slice_run.
  run_with @spread_run. run_with @filter_run. run_with @sort_run.
  run_with @slice_run.
  run_with @spread_run. run_with @filter_run. run_with @sort_run.
  run_with @slice_run.
  unfold mret, Store.State_ret.
  eexists. eexists. split.
  { rewrite <- !app_assoc. simpl. reflexivity. }
  cbn [Store.r_topTransfersIn Store.r_topTransfersOut Store.r_formPlayers
       Store.r_injuries Store.r_priceRisers Store.r_priceFallers].
  rewrite !length_app. cbn [length]. rewrite !read_app_add.
  repeat split.
Qed.


(** *** Grouping in the store *)

Lemma deref_cons {A : Type} (h : list (list A)) (d : Z) (l : nat)
    (obj : list (Z * nat)) :
  Store.deref h ((d, l) :: obj) = (d, Store.read l h) :: Store.deref h obj.
Proof. reflexivity. Qed.

Lemma deref_ext {A : Type} (h h' : list (list A)) (obj : list (Z * nat)) :
  (forall l, In l (map snd obj) -> Store.read l h' = Store.read l h) ->
  Store.deref h' obj = Store.deref h obj.
Proof.
  intros H. unfold Store.deref. apply map_ext_in. intros [d l] Hin.
  simpl. f_equal. apply H. apply in_map_iff. now exists (d, l).
Qed.

Lemma get_property_None (date : Z) (obj : list (Z * nat)) :
  Store.get_property date obj = None ->
  forall property, In property obj -> fst property <> date.
Proof.
  unfold Store.get_property. intros H [d l] Hin. simpl.
  destruct (List.find _ obj) as [x|] eqn:E; [discriminate|].
  pose proof (List.find_none _ _ E (d, l) Hin) as Hd. simpl in Hd.
  now apply Z.eqb_neq.
Qed.

Lemma push_fixture_absent (date : Z) (f : Fixture.t)
    (obj : list (Z * list Fixture.t)) :
  (forall property, In property obj -> fst property <> date) ->
  push_fixture date f obj = obj ++ [(date, [f])].
Proof.
  induction obj as [|[d fs] rest IH]; intros H; simpl; [reflexivity|].
  destruct (Z.eqb_spec d date) as [E|_].
  - exfalso. now apply (H (d, fs)); [left|].
  - rewrite IH; [reflexivity|]. intros p Hp. apply H. now right.
Qed.

Lemma push_existing (date : Z) (f : Fixture.t) (n l : nat)
    (obj : list (Z * nat)) (h : list (list Fixture.t)) :
  Store.fresh_object n obj h ->
  Store.get_property date obj = Some l ->
  In l (map snd obj)
  /\ Store.deref (<[l := Store.read l h ++ [f]]> h) obj
     = push_fixture date f (Store.deref h obj).
Proof.
  intros [Hrange Hnd]. induction obj as [|[d0 l0] rest IH]; [discriminate|].
  apply Forall_cons_iff in Hrange as [Hl0 Hrange]. simpl in Hl0, Hnd.
  apply NoDup_cons in Hnd as [Hnotin Hnd].
  unfold Store.get_property. cbn [List.find].
  destruct (Z.eqb_spec d0 date) as [E|Hne]; cbn [fmap option_fmap option_map].
  - intros [= <-]. split; [now left|].
    rewrite !deref_cons. cbn [push_fixture].
    rewrite (proj2 (Z.eqb_eq d0 date) E).
    rewrite read_insert_eq by lia. f_equal.
    apply deref_ext. intros l Hl. apply read_insert_ne.
    intros ->. apply Hnotin. now apply list_elem_of_In.
  - intros Hget. destruct (IH Hrange Hnd Hget) as [Hin IHeq].
    split; [now right|].
    rewrite !deref_cons. cbn [push_fixture].
    rewrite (proj2 (Z.eqb_neq d0 date) Hne).
    rewrite read_insert_ne, IHeq; [reflexivity|].
    intros ->. apply Hnotin. now apply list_elem_of_In.
Qed.

Lemma fresh_object_range {A : Type} (n l : nat) (obj : list (Z * nat))
    (h : list (list A)) :
  Store.fresh_object n obj h -> In l (map snd obj) ->
  (n <= l < length h)%nat.
Proof.
  intros [Hrange _] Hin. apply in_map_iff in Hin as (p & <- & Hp).
  rewrite List.Forall_forall in Hrange. now apply Hrange.
Qed.

(** One step of the grouping loop: only arrays of the object are
    written, and the object changes as in the pure model. *)
Lemma group_fixture_run (tza : Z -> Z) (n : nat) (obj : list (Z * nat))
    (f : Fixture.t) (h : list (list Fixture.t)) :
  (n <= length h)%nat ->
  Store.fresh_object n obj h ->
  exists obj' h',
    Store.group_fixture tza obj f h = (obj', h')
    /\ Store.fresh_object n obj' h'
    /\ (n <= length h')%nat
    /\ take n h' = take n h
    /\ Store.deref h' obj'
       = push_fixture (date_of tza f) f (Store.deref h obj).
Proof.
  intros Hn Hfresh. unfold Store.group_fixture.
  destruct (Store.get_property (date_of tza f) obj) as [l|] eqn:Hget.
  - destruct (push_existing _ f n l obj h Hfresh Hget) as [Hin Hderef].
    pose proof (fresh_object_range n l obj h Hfresh Hin) as Hl.
    erewrite bind_run by apply push_run.
    exists obj, (<[l := Store.read l h ++ [f]]> h).
    split; [reflexivity|]. split; [|split; [|split]].
    + destruct Hfresh as [Hrange Hnd]. split; [|exact Hnd].
      eapply List.Forall_impl; [|exact Hrange].
      intros p Hp. simpl in *. now rewrite length_insert.
    + now rewrite length_insert.
    + apply take_insert_ge. lia.
    + exact Hderef.
  - unfold Store.Array_new.
    erewrite bind_run by reflexivity.
    erewrite bind_run by apply push_run.
    rewrite read_snoc, insert_snoc. cbn [app].
    exists (obj ++ [(date_of tza f, length h)]), (h ++ [[f]]).
    split; [reflexivity|].
    destruct Hfresh as [Hrange Hnd].
    split; [|split; [|split]].
    + split.
      * apply Forall_app. split.
        -- eapply List.Forall_impl; [|exact Hrange].
           intros p Hp. rewrite length_app. simpl in *. lia.
        -- repeat constructor; simpl; rewrite ?length_app; simpl; lia.
      * rewrite map_app. simpl. apply NoDup_app. split; [exact Hnd|].
        split; [|apply NoDup_singleton].
        intros l Hl Hl'. apply list_elem_of_singleton in Hl'. subst l.
        apply list_elem_of_In, in_map_iff in Hl as (p & Hp1 & Hp2).
        rewrite List.Forall_forall in Hrange.
        specialize (Hrange p Hp2). lia.
    + rewrite length_app. lia.
    + now rewrite take_app_le.
    + unfold Store.deref at 1. rewrite map_app. cbn [map fst snd].
      rewrite read_snoc.
      rewrite push_fixture_absent.
      * f_equal. apply deref_ext. intros l Hl.
        apply read_app_l.
        apply in_map_iff in Hl as (p & <- & Hp).
        rewrite List.Forall_forall in Hrange.
        specialize (Hrange p Hp). lia.
      * intros p Hp. unfold Store.deref in Hp.
        apply in_map_iff in Hp as (q & <- & Hq). simpl.
        now apply (get_property_None _ _ Hget).
Qed.

Lemma group_fixtures_run (tza : Z -> Z) (n : nat) (items : list Fixture.t) :
  forall (obj : list (Z * nat)) (h : list (list Fixture.t)),
    (n <= length h)%nat ->
    Store.fresh_object n obj h ->
    exists obj' h',
      Store.foldM (Store.group_fixture tza) items obj h = (obj', h')
      /\ Store.fresh_object n obj' h'
      /\ (n <= length h')%nat
      /\ take n h' = take n h
      /\ Store.deref h' obj'
         = fold_left (fun o f => push_fixture (date_of tza f) f o) items
                     (Store.deref h obj).
Proof.
  induction items as [|f items IH]; intros obj h Hn Hfresh.
  - exists obj, h. repeat split; try assumption; apply Hfresh.
  - destruct (group_fixture_run tza n obj f h Hn Hfresh)
      as (obj1 & h1 & Hrun & Hfresh1 & Hn1 & Htake1 & Hderef1).
    destruct (IH obj1 h1 Hn1 Hfresh1)
      as (obj2 & h2 & Hrun2 & Hfresh2 & Hn2 & Htake2 & Hderef2).
    exists obj2, h2. cbn [Store.foldM fold_left].
    erewrite bind_run by exact Hrun.
    split; [exact Hrun2|]. split; [exact Hfresh2|].
    split; [exact Hn2|]. split; [congruence|].
    now rewrite Hderef2, Hderef1.
Qed.

(** The sorting loop sorts each array of the object in place and writes
    nothing else. *)
Lemma sort_days_run (n : nat) (obj : list (Z * nat)) :
  forall h : list (list Fixture.t),
    Store.fresh_object n obj h ->
    exists h',
      Store.foldM Store.sort_day obj tt h = (tt, h')
      /\ length h' = length h
      /\ take n h' = take n h
      /\ (forall l, ~ In l (map snd obj) ->
                    Store.read l h' = Store.read l h)
      /\ Store.deref h' obj = sort_days (Store.deref h obj).
Proof.
  induction obj as [|[d l] rest IH]; intros h [Hrange Hnd].
  - exists h. repeat split.
  - apply Forall_cons_iff in Hrange as [Hl Hrange]. simpl in Hl, Hnd.
    apply NoDup_cons in Hnd as [Hnotin Hnd].
    rewrite list_elem_of_In in Hnotin.
    set (h1 := <[l := sort by_kickoff (Store.read l h)]> h).
    assert (Hfresh1 : Store.fresh_object n rest h1).
    { split; [|exact Hnd]. eapply List.Forall_impl; [|exact Hrange].
      intros p Hp. unfold h1. simpl in *. now rewrite length_insert. }
    destruct (IH h1 Hfresh1) as (h' & Hrun & Hlen & Htake & Hother & Hderef).
    assert (Hstep : Store.sort_day tt (d, l) h = (tt, h1)) by reflexivity.
    exists h'. cbn [Store.foldM].
    erewrite bind_run by exact Hstep.
    split; [exact Hrun|].
    split; [unfold h1 in Hlen; now rewrite length_insert in Hlen|].
    split; [rewrite Htake; unfold h1; apply take_insert_ge; lia|].
    split.
    + intros l' Hl'. simpl in Hl'. rewrite Hother by tauto.
      unfold h1. apply read_insert_ne. tauto.
    + rewrite !deref_cons. cbn [sort_days map]. f_equal.
      * f_equal. rewrite (Hother l Hnotin). unfold h1.
        apply read_insert_eq. lia.
      * rewrite Hderef. f_equal. apply deref_ext. intros l' Hl'.
        unfold h1. apply read_insert_ne. intros ->. now apply Hnotin.
Qed.

Lemma take_unchanged {A : Type} (h h' : list (list A)) :
  take (length h) h' = h -> Store.unchanged h h'.
Proof.
  intros H. rewrite <- (take_drop (length h) h'), H. apply unchanged_app.
Qed.

(** Lines 114 to 127 in the store: the object refers to the groups of the
    pure model, and no array that existed is written. *)
Lemma fixturesByDate_run (tza : Z -> Z) (fixtures : nat) (gw : Z)
    (h : list (list Fixture.t)) :
  (fixtures < length h)%nat ->
  exists obj h',
    Store.fixturesByDate tza fixtures gw h = (obj, h')
    /\ take (length h) h' = h
    /\ Store.deref h' obj
       = fixturesByDate tza (Store.read fixtures h) gw.
Proof.
  intros Hf. unfold Store.fixturesByDate.
  set (gwFixtures := List.filter (in_gameweek gw) (Store.read fixtures h)).
  set (h1 := h ++ [gwFixtures]).
  assert (Hfresh : Store.fresh_object (length h1) ([] : list (Z * nat)) h1)
    by (split; constructor).
  destruct (group_fixtures_run tza (length h1) gwFixtures [] h1
              (Nat.le_refl _) Hfresh)
    as (obj & h2 & Hrun2 & Hfresh2 & Hn2 & Htake2 & Hderef2).
  destruct (sort_days_run (length h1) obj h2 Hfresh2)
    as (h3 & Hrun3 & Hlen3 & Htake3 & _ & Hderef3).
  exists obj, h3.
  erewrite bind_run by apply filter_run. fold gwFixtures. fold h1.
  erewrite bind_run
    by (unfold Store.contents, h1; rewrite read_snoc; reflexivity).
  fold h1. erewrite bind_run by exact Hrun2.
  erewrite bind_run by exact Hrun3.
  split; [reflexivity|]. split.
  - assert (E : take (length h1) h3 = h1)
      by (rewrite Htake3, Htake2; apply firstn_all).
    assert (Hmin : (length h `min` length h1 = length h)%nat)
      by (unfold h1; rewrite length_app; lia).
    rewrite <- Hmin, <- take_take, E. unfold h1.
    now rewrite take_app_length.
  - rewrite Hderef3, Hderef2. reflexivity.
Qed.

(** *** [buildHTML] in the store *)

Lemma on_fixtures_run {X : Type}
    (m : Store.State (list (list Fixture.t)) X) (s : Store.store) (x : X)
    (h' : list (list Fixture.t)) :
  m (Store.fixture_arrays s) = (x, h') ->
  Store.on_fixtures m s
  = (x, {| Store.element_arrays := Store.element_arrays s;
           Store.team_arrays := Store.team_arrays s;
           Store.event_arrays := Store.event_arrays s;
           Store.fixture_arrays := h' |}).
Proof. intros H. unfold Store.on_fixtures. now rewrite H. Qed.

Lemma on_elements_run {X : Type}
    (m : Store.State (list (list Element.t)) X) (s : Store.store) (x : X)
    (h' : list (list Element.t)) :
  m (Store.element_arrays s) = (x, h') ->
  Store.on_elements m s
  = (x, {| Store.element_arrays := h';
           Store.team_arrays := Store.team_arrays s;
           Store.event_arrays := Store.event_arrays s;
           Store.fixture_arrays := Store.fixture_arrays s |}).
Proof. intros H. unfold Store.on_elements. now rewrite H. Qed.

(** The run of [buildHTML] over a store writes no array that existed, and
    ends as the pure model does on the snapshot the store holds: with the
    same error, or with references to the same values. *)
Lemma buildHTML_run (tza : Z -> Z) (d : Store.data) (s : Store.store) :
  Store.allocated d s ->
  exists c s',
    Store.buildHTML tza d s = (c, s')
    /\ Store.snapshot_unchanged s s'
    /\ match c with
       | Normal v =>
           buildHTML tza (Store.snapshot_at d s)
           = Normal (Store.views_at v s')
       | Throw name =>
           buildHTML tza (Store.snapshot_at d s) = Throw name
       end.
Proof.
  intros (He & Ht & Hev & Hf).
  destruct (rankings_run (Store.ref_elements d) (Store.element_arrays s) He)
    as (r & extra & Hrank & R1 & R2 & R3 & R4 & R5 & R6).
  unfold Store.buildHTML, buildHTML.
  erewrite bind_run by reflexivity.
  cbn [Store.snapshot_at bootstrap events elements fixtures].
  destruct (getCurrentGameweek
              (Store.read (Store.ref_events d) (Store.event_arrays s)))
    as [currentGW|].
  - destruct (fixturesByDate_run tza (Store.ref_fixtures d)
                (Event.id currentGW) (Store.fixture_arrays s) Hf)
      as (obj & h' & Hrun & Htake & Hderef).
    erewrite bind_run by (apply on_fixtures_run, Hrun).
    erewrite bind_run by (apply on_elements_run, Hrank).
    eexists. eexists. split; [reflexivity|]. split.
    + repeat split; cbn; try apply unchanged_refl;
        [apply unchanged_app|now apply take_unchanged].
    + unfold Store.views_at.
      cbn [Store.ref_currentGW Store.ref_fixturesByDate Store.ref_rankings
           Store.element_arrays Store.fixture_arrays].
      now rewrite Hderef, R1, R2, R3, R4, R5, R6.
  - erewrite bind_run
      by (apply on_fixtures_run; unfold Store.contents; reflexivity).
    erewrite bind_run
      by (apply on_fixtures_run; unfold Store.Array_new, Store.alloc;
          reflexivity).
    cbn [Store.element_arrays Store.team_arrays Store.event_arrays
         Store.fixture_arrays].
    destruct (Store.read (Store.ref_fixtures d) (Store.fixture_arrays s)).
    + erewrite bind_run by (apply on_elements_run, Hrank).
      eexists. eexists. split; [reflexivity|]. split; [|reflexivity].
      repeat split; cbn; try apply unchanged_refl; apply unchanged_app.
    + eexists. eexists. split; [reflexivity|]. split; [|reflexivity].
      repeat split; cbn; try apply unchanged_refl; apply unchanged_app.
Qed.

Lemma snapshot_unchanged_at (d : Store.data) (s s' : Store.store) :
  Store.allocated d s -> Store.snapshot_unchanged s s' ->
  Store.snapshot_at d s' = Store.snapshot_at d s.
Proof.
  intros (He & Ht & Hev & Hf) (Ue & Ut & Uev & Uf).
  unfold Store.snapshot_at.
  now rewrite (unchanged_read _ _ _ He Ue), (unchanged_read _ _ _ Ht Ut),
    (unchanged_read _ _ _ Hev Uev), (unchanged_read _ _ _ Hf Uf).
Qed.

(** C10. Running the gameweek selector, the fixture grouping and the six
    rankings of [buildHTML] over a store that holds the snapshot writes
    to none of the arrays that existed: afterwards the players, teams,
    gameweeks and fixtures collections hold, element for element, what
    they held before. *)
Theorem buildHTML_leaves_snapshot_unchanged (tza : Z -> Z)
    (d : Store.data) (s : Store.store) :
  Store.allocated d s ->
  Store.snapshot_unchanged s (snd (Store.buildHTML tza d s))
  /\ Store.snapshot_at d (snd (Store.buildHTML tza d s))
     = Store.snapshot_at d s.
Proof.
  intros Hd.
  destruct (buildHTML_run tza d s Hd) as (c & s' & Hrun & Hun & _).
  rewrite Hrun. cbn [snd]. split; [exact Hun|].
  now apply snapshot_unchanged_at.
Qed.

Lemma buildHTML_leaves_snapshot_unchanged_witness :
  Store.allocated sample_refs sample_store
  /\ Store.snapshot_unchanged sample_store
       (snd (Store.buildHTML bst sample_refs sample_store))
  /\ Store.snapshot_at sample_refs
       (snd (Store.buildHTML bst sample_refs sample_store))
     = Store.snapshot_at sample_refs sample_store.
Proof.
  assert (H : Store.allocated sample_refs sample_store)
    by (unfold Store.allocated; simpl; lia).
  split; [exact H|].
  apply (buildHTML_leaves_snapshot_unchanged bst sample_refs sample_store H).
Defined.

(** * Further properties of [build.js] *)

(** ** [getTeamName] *)

(** X1. With no team of the given id, the placeholder is shown. *)
Theorem getTeamName_unknown (teams : list Team.t) (id : Z) :
  (forall t, In t teams -> Team.id t <> id) ->
  getTeamName teams id = "???"%string.
Proof.
  intros H. unfold getTeamName.
  destruct (List.find (fun t => Team.id t =? id) teams) as [t|] eqn:E;
    [|reflexivity].
  apply List.find_some in E as [Hin Hid].
  apply Z.eqb_eq in Hid. now destruct (H t Hin).
Qed.

Lemma getTeamName_unknown_witness :
  (forall t, In t [team_ars; team_che] -> Team.id t <> 7)
  /\ getTeamName [team_ars; team_che] 7 = "???"%string.
Proof.
  assert (H : forall t, In t [team_ars; team_che] -> Team.id t <> 7).
  { intros t [<-|[<-|[]]]; discriminate. }
  split; [exact H|].
  apply (getTeamName_unknown [team_ars; team_che] 7 H).
Defined.

Lemma find_unique_id (teams : list Team.t) (t : Team.t) :
  NoDup (map Team.id teams) -> In t teams ->
  List.find (fun x => Team.id x =? Team.id t) teams = Some t.
Proof.
  induction teams as [|a teams IH]; intros Hnd Hin; [destruct Hin|].
  simpl in Hnd. apply NoDup_cons in Hnd as [Ha Hnd]. simpl.
  destruct (Z.eqb_spec (Team.id a) (Team.id t)) as [E|Hne].
  - destruct Hin as [->|Hin]; [reflexivity|]. exfalso. apply Ha.
    rewrite E. apply list_elem_of_In, in_map. exact Hin.
  - destruct Hin as [->|Hin]; [congruence|]. now apply IH.
Qed.

(** X2. When the team ids are distinct, looking up the id of a team of
    the list gives that team's short name. *)
Theorem getTeamName_of_team (teams : list Team.t) (t : Team.t) :
  NoDup (map Team.id teams) -> In t teams ->
  getTeamName teams (Team.id t) = Team.short_name t.
Proof.
  intros Hnd Hin. unfold getTeamName.
  now rewrite (find_unique_id teams t Hnd Hin).
Qed.

Lemma getTeamName_of_team_witness :
  NoDup (map Team.id [team_ars; team_che])
  /\ In team_che [team_ars; team_che]
  /\ getTeamName [team_ars; team_che] (Team.id team_che)
     = Team.short_name team_che.
Proof.
  assert (Hnd : NoDup (map Team.id [team_ars; team_che])).
  { simpl. apply NoDup_cons. split.
    - intros H. apply list_elem_of_singleton in H. discriminate.
    - apply NoDup_singleton. }
  assert (Hin : In team_che [team_ars; team_che]) by (right; now left).
  split; [exact Hnd|]. split; [exact Hin|].
  apply (getTeamName_of_team [team_ars; team_che] team_che Hnd Hin).
Defined.

(** ** Difficulty colours *)

(** X3. [getDifficultyColor] never returns [undefined]; the five ratings
    have five different colours; and any other rating is shown exactly as
    rating 3, background and text. *)
Theorem difficulty_colours :
  (forall fdr, exists c, getDifficultyColor fdr = Some c)
  /\ (forall a b, 1 <= a <= 5 -> 1 <= b <= 5 ->
                  getDifficultyColor a = getDifficultyColor b -> a = b)
  /\ (forall fdr, ~ 1 <= fdr <= 5 ->
                  getDifficultyColor fdr = getDifficultyColor 3
                  /\ getDifficultyTextColor fdr = getDifficultyTextColor 3).
Proof.
  split; [|split].
  - intros fdr. unfold getDifficultyColor.
    destruct (colors fdr); eexists; reflexivity.
  - intros a b Ha Hb.
    assert (Ea : a = 1 \/ a = 2 \/ a = 3 \/ a = 4 \/ a = 5) by lia.
    assert (Eb : b = 1 \/ b = 2 \/ b = 3 \/ b = 4 \/ b = 5) by lia.
    repeat (destruct Ea as [Ea|Ea]); repeat (destruct Eb as [Eb|Eb]);
      subst; try reflexivity; discriminate.
  - intros fdr H. unfold getDifficultyColor, getDifficultyTextColor, colors.
    simpl.
    destruct (Z.eqb_spec fdr 1); [lia|]. destruct (Z.eqb_spec fdr 2); [lia|].
    destruct (Z.eqb_spec fdr 3); [lia|]. destruct (Z.eqb_spec fdr 4); [lia|].
    destruct (Z.eqb_spec fdr 5); [lia|]. split; reflexivity.
Qed.

(** ** [getTimeUntil] *)

Lemma ends_with_append (c x : ascii) (s : string) :
  ends_with c (s ++ String x EmptyString) = Ascii.eqb x c.
Proof.
  induction s as [|y s IH]; simpl; [reflexivity|].
  destruct (s ++ String x EmptyString)%string eqn:E; [|exact IH].
  destruct s; discriminate.
Qed.

Lemma append_assoc (a b c : string) :
  ((a ++ b) ++ c)%string = (a ++ (b ++ c))%string.
Proof. induction a as [|x a IH]; simpl; [reflexivity|now rewrite IH]. Qed.

Lemma show_countdown_not_passed (c : countdown) :
  c <> Passed -> show_countdown c <> "PASSED"%string.
Proof.
  intros Hc E.
  assert (H : ends_with "D" (show_countdown c) = true) by now rewrite E.
  destruct c as [|d h|h m|m]; [congruence| | |]; cbn [show_countdown] in H.
  - rewrite <- !append_assoc in H.
    now rewrite ends_with_append in H.
  - rewrite <- !append_assoc in H.
    now rewrite ends_with_append in H.
  - now rewrite ends_with_append in H.
Qed.

(** X4. The countdown reads PASSED exactly when the deadline lies
    strictly before now; at the deadline itself it reads 0m. *)
Theorem getTimeUntil_passed :
  (forall now deadline,
      getTimeUntil now deadline = "PASSED"%string <-> deadline < now)
  /\ (forall t, getTimeUntil t t = "0m"%string).
Proof.
  split.
  - intros now deadline. unfold getTimeUntil. split.
    + intros H. destruct (Z.lt_ge_cases deadline now) as [Hlt|Hge];
        [exact Hlt|]. exfalso. revert H.
      apply show_countdown_not_passed. unfold time_left.
      destruct (Z.ltb_spec (deadline - now) 0); [lia|].
      repeat destruct (_ >? _); discriminate.
    + intros H. unfold time_left.
      destruct (Z.ltb_spec (deadline - now) 0); [reflexivity|lia].
  - intros t. unfold getTimeUntil, time_left. now rewrite Z.sub_diag.
Qed.

(** X5. While the deadline has not passed, the figures are in range (a
    positive leading figure, hours below 24, minutes below 60) and the
    time displayed never exceeds the time left: it falls short of it by
    less than the unit of the last figure shown, an hour when days are
    shown and a minute otherwise. *)
Theorem getTimeUntil_never_overstates (now deadline : Z) :
  now <= deadline ->
  let c := time_left now deadline in
  well_formed_countdown c
  /\ displayed_ms c <= deadline - now < displayed_ms c + display_unit c.
Proof.
  intros H. unfold time_left.
  destruct (Z.ltb_spec (deadline - now) 0); [lia|].
  set (diff := deadline - now) in *.
  change (1000 * 60 * 60 * 24) with 86400000.
  change (1000 * 60 * 60) with 3600000.
  change (1000 * 60) with 60000.
  rewrite !Z.rem_mod_nonneg by lia.
  pose proof (Z.div_mod diff 86400000 ltac:(lia)) as D1.
  pose proof (Z.mod_pos_bound diff 86400000 ltac:(lia)) as B1.
  pose proof (Z.div_mod (diff mod 86400000) 3600000 ltac:(lia)) as D2.
  pose proof (Z.mod_pos_bound (diff mod 86400000) 3600000 ltac:(lia)) as B2.
  pose proof (Z.div_mod diff 3600000 ltac:(lia)) as D3.
  pose proof (Z.mod_pos_bound diff 3600000 ltac:(lia)) as B3.
  pose proof (Z.div_mod (diff mod 3600000) 60000 ltac:(lia)) as D4.
  pose proof (Z.mod_pos_bound (diff mod 3600000) 60000 ltac:(lia)) as B4.
  rewrite !Z.gtb_ltb.
  destruct (Z.ltb_spec 0 (diff / 86400000)) as [Hd|Hd].
  - cbn [well_formed_countdown displayed_ms display_unit]. unfold msPerDay.
    lia.
  - assert (Ed : diff / 86400000 = 0)
      by (pose proof (Z.div_pos diff 86400000); lia).
    assert (Em : diff mod 86400000 = diff) by lia.
    rewrite Em in *.
    destruct (Z.ltb_spec 0 (diff / 3600000)) as [Hh|Hh];
      cbn [well_formed_countdown displayed_ms display_unit]; lia.
Qed.

Lemma getTimeUntil_never_overstates_witness :
  0 <= 93784000
  /\ well_formed_countdown (time_left 0 93784000)
  /\ displayed_ms (time_left 0 93784000) <= 93784000 - 0
     < displayed_ms (time_left 0 93784000)
       + display_unit (time_left 0 93784000).
Proof.
  split; [lia|].
  apply (getTimeUntil_never_overstates 0 93784000). lia.
Defined.

(** ** What the rankings list *)



Lemma NoDup_firstn {A : Type} (n : nat) (l : list A) :
  NoDup l -> NoDup (firstn n l).
Proof.
  intros H. rewrite <- (firstn_skipn n l) in H.
  now apply NoDup_app in H as [H _].
Qed.

Lemma rank_NoDup (comparefn : Element.t -> Element.t -> number)
    (pred : Element.t -> bool) (limit : nat) (players : list Element.t) :
  NoDup players ->
  NoDup (slice 0 limit (sort comparefn (List.filter pred players))).
Proof.
  intros H. rewrite slice_0. apply NoDup_firstn.
  apply NoDup_ListNoDup.
  apply (Permutation_NoDup (Permutation_sym (sort_perm comparefn _))).
  apply List.NoDup_filter. now apply NoDup_ListNoDup.
Qed.

(** X7. No ranking lists a player twice when the snapshot does not. *)
Theorem rankings_list_no_player_twice :
  all_rankings (fun op => forall players, NoDup players -> NoDup (op players)).
Proof.
  unfold all_rankings.
  split; [|split; [|split; [|split; [|split]]]]; intros players H.
  - unfold topTransfersIn. rewrite <- (filter_no_filter players).
    now apply rank_NoDup.
  - unfold topTransfersOut. rewrite <- (filter_no_filter players).
    now apply rank_NoDup.
  - now apply rank_NoDup.
  - now apply rank_NoDup.
  - now apply rank_NoDup.
  - now apply rank_NoDup.
Qed.

(** A player passing the filter but left out of the list is ranked no
    higher than any listed player. *)
Lemma rank_dominates (comparefn : Element.t -> Element.t -> number)
    (pred : Element.t -> bool) (before : Element.t -> Element.t -> Prop)
    (limit : nat) (players : list Element.t) (p q : Element.t) :
  StronglySorted before (sort comparefn (List.filter pred players)) ->
  In p (slice 0 limit (sort comparefn (List.filter pred players))) ->
  In q players -> pred q = true ->
  ~ In q (slice 0 limit (sort comparefn (List.filter pred players))) ->
  before p q.
Proof.
  rewrite slice_0. intros HS Hp Hq Hpred Hnot.
  rewrite <- (firstn_skipn limit (sort comparefn _)) in HS.
  apply StronglySorted_app in HS as (H & _ & _).
  apply H; [now apply list_elem_of_In|].
  assert (Hin : In q (sort comparefn (List.filter pred players))).
  { apply sort_In, List.filter_In. now split. }
  rewrite <- (firstn_skipn limit (sort comparefn _)) in Hin.
  apply in_app_or in Hin as [Hin|Hin]; [contradiction|].
  now apply list_elem_of_In.
Qed.

Lemma form_filter_sorted (l : list Element.t) :
  StronglySorted (fun x y => num_ge (form_value x) (form_value y))
    (sort by_form (List.filter form_filter l)).
Proof.
  apply sort_num_desc; [apply after_by_form|].
  eapply List.Forall_impl; [|apply filter_Forall]. intros p Hp.
  apply form_filter_value in Hp as [_ Hp].
  now apply num_gt_not_NaN_l in Hp.
Qed.

Lemma injury_filter_sorted (l : list Element.t) :
  StronglySorted
    (fun x y => num_ge (ownership_value x) (ownership_value y))
    (sort by_ownership (List.filter injury_filter l)).
Proof.
  apply sort_num_desc; [apply after_by_ownership|].
  eapply List.Forall_impl; [|apply filter_Forall]. intros p Hp.
  apply injury_filter_value in Hp as [_ Hp].
  now apply num_gt_not_NaN_l in Hp.
Qed.

(** X8. Each ranking is a top list: a player of the snapshot that passes
    the filter and is not listed has a key no better than that of every
    listed player (no more transfers, no higher form or ownership, no
    larger rise, no deeper fall). *)
Theorem rankings_list_the_top (players : list Element.t) (p q : Element.t) :
  In q players ->
  (In p (topTransfersIn players) -> ~ In q (topTransfersIn players) ->
   Element.transfers_in_event q <= Element.transfers_in_event p)
  /\ (In p (topTransfersOut players) -> ~ In q (topTransfersOut players) ->
      Element.transfers_out_event q <= Element.transfers_out_event p)
  /\ (In p (formPlayers players) -> form_filter q = true ->
      ~ In q (formPlayers players) ->
      num_ge (form_value p) (form_value q))
  /\ (In p (injuries players) -> injury_filter q = true ->
      ~ In q (injuries players) ->
      num_ge (ownership_value p) (ownership_value q))
  /\ (In p (priceRisers players) -> riser_filter q = true ->
      ~ In q (priceRisers players) ->
      Element.cost_change_event q <= Element.cost_change_event p)
  /\ (In p (priceFallers players) -> faller_filter q = true ->
      ~ In q (priceFallers players) ->
      Element.cost_change_event p <= Element.cost_change_event q).
Proof.
  intros Hq. split; [|split; [|split; [|split; [|split]]]].
  - unfold topTransfersIn. rewrite <- (filter_no_filter players).
    intros Hp Hnot.
    apply (rank_dominates by_transfers_in no_filter
             (fun x y => Element.transfers_in_event y
                         <= Element.transfers_in_event x)
             5 players p q); auto.
    apply sort_desc, after_by_transfers_in.
  - unfold topTransfersOut. rewrite <- (filter_no_filter players).
    intros Hp Hnot.
    apply (rank_dominates by_transfers_out no_filter
             (fun x y => Element.transfers_out_event y
                         <= Element.transfers_out_event x)
             5 players p q); auto.
    apply sort_desc, after_by_transfers_out.
  - intros Hp Hpred Hnot.
    apply (rank_dominates by_form form_filter
             (fun x y => num_ge (form_value x) (form_value y))
             5 players p q); auto.
    apply form_filter_sorted.
  - intros Hp Hpred Hnot.
    apply (rank_dominates by_ownership injury_filter
             (fun x y => num_ge (ownership_value x) (ownership_value y))
             8 players p q); auto.
    apply injury_filter_sorted.
  - intros Hp Hpred Hnot.
    apply (rank_dominates by_cost_change_desc riser_filter
             (fun x y => Element.cost_change_event y
                         <= Element.cost_change_event x)
             5 players p q); auto.
    apply sort_desc, after_by_cost_change_desc.
  - intros Hp Hpred Hnot.
    apply (rank_dominates by_cost_change_asc faller_filter
             (fun x y => Element.cost_change_event x
                         <= Element.cost_change_event y)
             5 players p q); auto.
    apply StronglySorted_weaken
      with (R := fun x y => - Element.cost_change_event y
                            <= - Element.cost_change_event x).
    + intros; lia.
    + apply (sort_desc by_cost_change_asc
               (fun x => - Element.cost_change_event x)).
      apply after_by_cost_change_asc.
Qed.

Lemma rankings_list_the_top_witness :
  In p_zero (crowd ++ [p_zero])
  /\ In (busy 5) (topTransfersIn (crowd ++ [p_zero]))
  /\ ~ In p_zero (topTransfersIn (crowd ++ [p_zero]))
  /\ Element.transfers_in_event p_zero
     <= Element.transfers_in_event (busy 5).
Proof.
  assert (Hq : In p_zero (crowd ++ [p_zero])) by (do 5 right; now left).
  assert (Hp : In (busy 5) (topTransfersIn (crowd ++ [p_zero])))
    by now left.
  assert (Hn : ~ In p_zero (topTransfersIn (crowd ++ [p_zero]))).
  { intros H. vm_compute in H.
    repeat (destruct H as [H|H]; [discriminate|]). exact H. }
  split; [exact Hq|]. split; [exact Hp|]. split; [exact Hn|].
  exact (proj1 (rankings_list_the_top (crowd ++ [p_zero]) (busy 5) p_zero Hq)
               Hp Hn).
Defined.

(** ** Fixtures that arrive in kick-off order *)

Lemma sort_sorted_id {A : Type} (comparefn : A -> A -> number)
    (l : list A) :
  StronglySorted (fun x y => sorts_after comparefn x y = false) l ->
  sort comparefn l = l.
Proof.
  induction l as [|x l IH]; intros HS; [reflexivity|].
  apply StronglySorted_inv in HS as [HS Hx].
  cbn [sort foldr]. fold (sort comparefn l). rewrite (IH HS).
  destruct l as [|y l]; [reflexivity|]. cbn [insert_sorted].
  apply Forall_inv in Hx. now rewrite Hx.
Qed.

Lemma StronglySorted_filter_list {A : Type} (R : A -> A -> Prop)
    (pred : A -> bool) (l : list A) :
  StronglySorted R l -> StronglySorted R (List.filter pred l).
Proof.
  induction l as [|x l IH]; intros HS; [constructor|].
  apply StronglySorted_inv in HS as [HS Hx]. simpl.
  destruct (pred x); [|now apply IH].
  constructor; [now apply IH|].
  rewrite List.Forall_forall in Hx |- *. intros y Hy.
  apply Hx. now apply List.filter_In in Hy.
Qed.

Lemma sort_by_kickoff_id (l : list Fixture.t) :
  StronglySorted
    (fun a b => Fixture.kickoff_time a <= Fixture.kickoff_time b) l ->
  sort by_kickoff l = l.
Proof.
  intros HS. apply sort_sorted_id.
  apply StronglySorted_weaken
    with (R := fun a b => Fixture.kickoff_time a <= Fixture.kickoff_time b);
    [|exact HS].
  intros x y _ _ H. rewrite after_by_kickoff, Z.gtb_ltb, Z.ltb_ge. lia.
Qed.

Lemma push_fixture_last (d : Z) (f : Fixture.t)
    (obj : list (Z * list Fixture.t)) :
  StronglySorted Z.lt (map fst obj) ->
  Forall (fun k => k <= d) (map fst obj) ->
  concat (map snd (push_fixture d f obj)) = concat (map snd obj) ++ [f].
Proof.
  induction obj as [|[d0 fs] rest IH]; intros HS Hle; [reflexivity|].
  cbn [map fst] in HS, Hle.
  apply StronglySorted_inv in HS as [HS Hd0].
  apply Forall_cons_iff in Hle as [Hd0le Hle].
  cbn [push_fixture]. destruct (Z.eqb_spec d0 d) as [->|Hne].
  - destruct rest as [|[d1 gs] rest].
    + simpl. now rewrite !app_nil_r.
    + exfalso. cbn [map fst] in Hd0, Hle.
      apply Forall_inv in Hd0. apply Forall_inv in Hle. lia.
  - cbn [map snd concat]. rewrite (IH HS Hle). now rewrite app_assoc.
Qed.

Lemma dates_in_order (tza : Z -> Z) (l : list Fixture.t) :
  (forall t1 t2, t1 <= t2 -> LocalTime tza t1 <= LocalTime tza t2) ->
  StronglySorted
    (fun a b => Fixture.kickoff_time a <= Fixture.kickoff_time b) l ->
  StronglySorted Z.le (map (date_of tza) l).
Proof.
  intros Hmono. induction l as [|x l IH]; intros HS; [constructor|].
  apply StronglySorted_inv in HS as [HS Hx]. cbn [map].
  constructor; [now apply IH|].
  rewrite List.Forall_forall in Hx |- *. intros d Hd.
  apply in_map_iff in Hd as (y & <- & Hy).
  unfold date_of, toDateString, Day, msPerDay.
  apply Z.div_le_mono; [lia|]. apply Hmono. now apply Hx.
Qed.

Lemma group_by_date_snoc (tza : Z -> Z) (l : list Fixture.t)
    (f : Fixture.t) :
  group_by_date tza (l ++ [f])
  = push_fixture (date_of tza f) f (group_by_date tza l).
Proof. unfold group_by_date. now rewrite fold_left_app. Qed.

Lemma group_by_date_keys (tza : Z -> Z) (l : list Fixture.t) :
  map fst (group_by_date tza l) = first_keys (map (date_of tza) l).
Proof.
  rewrite group_by_date_closed, map_map. simpl. apply map_id.
Qed.

Lemma group_by_date_in_order (tza : Z -> Z) (l : list Fixture.t) :
  StronglySorted Z.le (map (date_of tza) l) ->
  concat (map snd (group_by_date tza l)) = l.
Proof.
  induction l as [|f l IH] using rev_ind; intros HS; [reflexivity|].
  rewrite map_app in HS. apply StronglySorted_app in HS as (Hle & HS & _).
  rewrite group_by_date_snoc, push_fixture_last.
  - now rewrite (IH HS).
  - rewrite group_by_date_keys. now apply first_keys_ascending.
  - rewrite group_by_date_keys. apply List.Forall_forall. intros k Hk.
    apply (proj1 (first_keys_In _ _)) in Hk.
    apply Hle; [apply list_elem_of_In; exact Hk|].
    cbn [map]. apply list_elem_of_singleton. reflexivity.
Qed.

(** X9. When the fixtures of the gameweek arrive in kick-off order and
    local time never runs backwards on the machine (a fixed offset, for
    one), the groups come in increasing date order and, read one after
    the other, give the fixtures of the gameweek in exactly the order
    they arrived. *)
Theorem fixtures_in_kickoff_order (tza : Z -> Z)
    (fixtures : list Fixture.t) (gw : Z) :
  (forall t1 t2, t1 <= t2 -> LocalTime tza t1 <= LocalTime tza t2) ->
  StronglySorted
    (fun a b => Fixture.kickoff_time a <= Fixture.kickoff_time b)
    (List.filter (in_gameweek gw) fixtures) ->
  concat (map snd (fixturesByDate tza fixtures gw))
  = List.filter (in_gameweek gw) fixtures
  /\ StronglySorted Z.lt (map fst (fixturesByDate tza fixtures gw)).
Proof.
  intros Hmono HS.
  set (selected := List.filter (in_gameweek gw) fixtures) in *.
  pose proof (dates_in_order tza selected Hmono HS) as Hdates.
  assert (E : fixturesByDate tza fixtures gw = group_by_date tza selected).
  { rewrite fixturesByDate_closed, group_by_date_closed. fold selected.
    apply map_ext. intros d. f_equal. apply sort_by_kickoff_id.
    unfold on_day. now apply StronglySorted_filter_list. }
  rewrite E. split.
  - now apply group_by_date_in_order.
  - rewrite group_by_date_keys. now apply first_keys_ascending.
Qed.

Lemma fixtures_in_kickoff_order_witness :
  (forall t1 t2, t1 <= t2 -> LocalTime bst t1 <= LocalTime bst t2)
  /\ StronglySorted
       (fun a b => Fixture.kickoff_time a <= Fixture.kickoff_time b)
       (List.filter (in_gameweek 1)
                    [fx_saturday; fx_late; fx_later; fx_sunday])
  /\ concat (map snd (fixturesByDate bst
                        [fx_saturday; fx_late; fx_later; fx_sunday] 1))
     = List.filter (in_gameweek 1)
                   [fx_saturday; fx_late; fx_later; fx_sunday]
  /\ StronglySorted Z.lt
       (map fst (fixturesByDate bst
                   [fx_saturday; fx_late; fx_later; fx_sunday] 1)).
Proof.
  assert (Hm : forall t1 t2, t1 <= t2 -> LocalTime bst t1 <= LocalTime bst t2)
    by (intros t1 t2 H; unfold LocalTime, bst; lia).
  assert (HS : StronglySorted
                 (fun a b => Fixture.kickoff_time a <= Fixture.kickoff_time b)
                 (List.filter (in_gameweek 1)
                    [fx_saturday; fx_late; fx_later; fx_sunday])).
  { cbn. repeat constructor; cbn; lia. }
  split; [exact Hm|]. split; [exact HS|].
  apply (fixtures_in_kickoff_order bst
           [fx_saturday; fx_late; fx_later; fx_sunday] 1 Hm HS).
Defined.

(** ** Identity of the result arrays *)

Ltac run_abstract lem :=
  erewrite bind_run by (apply lem); heap_simpl;
  repeat match goal with
         | |- context [Store.read ?p ?H] =>
             let x := fresh "a" in generalize (Store.read p H); intros x
         end.

(** X10. The six rankings are six different arrays, all created by the
    run: none of them is the players array or any other array that
    existed, and no two of them are the same array, so that changing one
    list in place can affect neither the snapshot nor another list. *)
Theorem rankings_are_fresh_arrays (players : nat)
    (h : list (list Element.t)) :
  let r := fst (Store.rankings players h) in
  let h' := snd (Store.rankings players h) in
  let results :=
    [Store.r_topTransfersIn r; Store.r_topTransfersOut r;
     Store.r_formPlayers r; Store.r_injuries r;
     Store.r_priceRisers r; Store.r_priceFallers r] in
  NoDup results
  /\ Forall (fun l => (length h <= l < length h')%nat) results.
Proof.
  unfold Store.rankings.
  run_abstract @spread_run. run_abstract @sort_run. run_abstract @slice_run.
  run_abstract @spread_run. run_abstract @sort_run. run_abstract @slice_run.
  run_abstract @spread_run. run_abstract @filter_run. run_abstract @sort_run.
  run_abstract @slice_run.
  run_abstract @filter_run. run_abstract @sort_run. run_abstract @slice_run.
  run_abstract @spread_run. run_abstract @filter_run. run_abstract @sort_run.
  run_abstract @slice_run.
  run_abstract @spread_run. run_abstract @filter_run. run_abstract @sort_run.
  run_abstract @slice_run.
  unfold mret, Store.State_ret.
  cbn [fst snd Store.r_topTransfersIn Store.r_topTransfersOut
       Store.r_formPlayers Store.r_injuries Store.r_priceRisers
       Store.r_priceFallers].
  rewrite !length_app. cbn [length].
  split.
  - apply NoDup_ListNoDup. repeat constructor; simpl; lia.
  - repeat constructor; lia.
Qed.

(** X11. Every date of [fixturesByDate] has an array of its own, created
    by the run: it is neither the fixtures array nor the filtered copy of
    it, and no two dates share an array. *)
Theorem day_arrays_are_fresh (tza : Z -> Z) (fixtures : nat) (gw : Z)
    (h : list (list Fixture.t)) :
  let obj := fst (Store.fixturesByDate tza fixtures gw h) in
  let h' := snd (Store.fixturesByDate tza fixtures gw h) in
  NoDup (map snd obj)
  /\ Forall (fun l => (length h < l < length h')%nat) (map snd obj).
Proof.
  unfold Store.fixturesByDate.
  set (gwFixtures := List.filter (in_gameweek gw) (Store.read fixtures h)).
  set (h1 := h ++ [gwFixtures]).
  assert (Hfresh : Store.fresh_object (length h1) ([] : list (Z * nat)) h1)
    by (split; constructor).
  destruct (group_fixtures_run tza (length h1) gwFixtures [] h1
              (Nat.le_refl _) Hfresh)
    as (obj & h2 & Hrun2 & Hfresh2 & _).
  destruct (sort_days_run (length h1) obj h2 Hfresh2)
    as (h3 & Hrun3 & Hlen3 & _).
  erewrite bind_run by apply filter_run. fold gwFixtures. fold h1.
  erewrite bind_run
    by (unfold Store.contents, h1; rewrite read_snoc; reflexivity).
  fold h1. erewrite bind_run by exact Hrun2.
  erewrite bind_run by exact Hrun3.
  cbn [mret Store.State_ret fst snd].
  destruct Hfresh2 as [Hrange Hnd]. split; [exact Hnd|].
  apply List.Forall_forall. intros l Hl.
  apply in_map_iff in Hl as (p & <- & Hp).
  rewrite List.Forall_forall in Hrange. specialize (Hrange p Hp).
  unfold h1 in Hrange. rewrite length_app in Hrange. simpl in Hrange. lia.
Qed.

(** X12. Run over a store that holds the snapshot, [buildHTML] ends as
    its value-level reading does: with the same error, or with
    references that, read back after the run, give the gameweek, the
    groups and the six lists computed from the snapshot.  The in-place
    sorts and pushes disturb no value that is read later. *)
Theorem buildHTML_in_store_agrees (tza : Z -> Z) (d : Store.data)
    (s : Store.store) :
  Store.allocated d s ->
  match fst (Store.buildHTML tza d s) with
  | Normal v =>
      buildHTML tza (Store.snapshot_at d s)
      = Normal (Store.views_at v (snd (Store.buildHTML tza d s)))
  | Throw name => buildHTML tza (Store.snapshot_at d s) = Throw name
  end.
Proof.
  intros Hd.
  destruct (buildHTML_run tza d s Hd) as (c & s' & Hrun & _ & Hc).
  now rewrite Hrun.
Qed.

Lemma buildHTML_in_store_agrees_witness :
  Store.allocated sample_refs sample_store
  /\ match fst (Store.buildHTML bst sample_refs sample_store) with
     | Normal v =>
         buildHTML bst (Store.snapshot_at sample_refs sample_store)
         = Normal (Store.views_at v
                     (snd (Store.buildHTML bst sample_refs sample_store)))
     | Throw name =>
         buildHTML bst (Store.snapshot_at sample_refs sample_store)
         = Throw name
     end.
Proof.
  assert (H : Store.allocated sample_refs sample_store)
    by (unfold Store.allocated; simpl; lia).
  split; [exact H|].
  apply (buildHTML_in_store_agrees bst sample_refs sample_store H).
Defined.

(** ** The script *)

Ltac run_script :=
  unfold main, main_try, fetchFPLData, fetchJSON, fs_call, emit, lift,
    run_throw;
  cbn -[buildHTML].

Ltac no_write H He :=
  simpl in H;
  repeat (destruct H as [H|H]; [subst; simpl in He; discriminate|]);
  contradiction.

(** X13. The script touches the disk only after a complete success: a
    directory creation or a file write occurs in a run only if both
    requests returned a payload and [buildHTML] returned on it, and what
    is written is then the page built from that payload, or the payload
    itself. *)
Theorem main_writes_only_after_success (w : world) (e : effect) :
  In e (main w) -> is_write e = true ->
  exists data v,
    fetched w data
    /\ buildHTML (LocalTZA w) data = Normal v
    /\ (e = mkdirSync "public"
        \/ e = writeFileSync "public/index.html" (Page v)
        \/ e = writeFileSync "data.json" (Json data)).
Proof.
  destruct w as [rb rf tza pe mk wi wd].
  destruct rb as [|[] sb [b|]];
    try (run_script; intros H He; no_write H He).
  destruct rf as [|[] sf [f|]];
    try (run_script; intros H He; no_write H He).
  run_script.
  destruct (buildHTML tza {| bootstrap := b; fixtures := f |}) as [v|name]
    eqn:Eb; [|intros H He; no_write H He].
  intros H He.
  exists {| bootstrap := b; fixtures := f |}, v.
  split; [split; eexists; reflexivity|]. split; [exact Eb|].
  destruct pe, mk, wi, wd; simpl in H;
    repeat (destruct H as [H|H];
            [subst; simpl in He; first [discriminate|auto 6]|]);
    contradiction.
Qed.

Lemma main_writes_only_after_success_witness :
  In (writeFileSync "data.json" (Json sample_data)) (main sample_world)
  /\ is_write (writeFileSync "data.json" (Json sample_data)) = true
  /\ exists data v,
       fetched sample_world data
       /\ buildHTML (LocalTZA sample_world) data = Normal v
       /\ (writeFileSync "data.json" (Json sample_data)
           = mkdirSync "public"
           \/ writeFileSync "data.json" (Json sample_data)
              = writeFileSync "public/index.html" (Page v)
           \/ writeFileSync "data.json" (Json sample_data)
              = writeFileSync "data.json" (Json data)).
Proof.
  assert (H : In (writeFileSync "data.json" (Json sample_data))
                 (main sample_world)).
  { unfold main. cbn. do 8 right. now left. }
  split; [exact H|]. split; [reflexivity|].
  apply (main_writes_only_after_success sample_world
           (writeFileSync "data.json" (Json sample_data)) H eq_refl).
Defined.

(** X14. When the first request does not yield a payload (network
    failure, HTTP error status, or a body that is not JSON), the second
    endpoint is never requested: the run is the announcement, the one
    request, the error report and exit code 1. *)
Theorem main_stops_at_first_failed_request (w : world) (name : string) :
  request_error (bootstrap_static w) = Some name ->
  main w
  = [console_log "📊 Fetching FPL data...";
     fetch "https://fantasy.premierleague.com/api/bootstrap-static/";
     console_error name; process_exit 1].
Proof.
  destruct w as [rb rf tza pe mk wi wd]. cbn [bootstrap_static].
  destruct rb as [|[] sb [b|]]; simpl; intros [= <-]; reflexivity.
Qed.

Lemma main_stops_at_first_failed_request_witness :
  request_error (bootstrap_static world_unavailable) = Some "Error"%string
  /\ main world_unavailable
     = [console_log "📊 Fetching FPL data...";
        fetch "https://fantasy.premierleague.com/api/bootstrap-static/";
        console_error "Error"; process_exit 1].
Proof.
  split; [reflexivity|].
  apply (main_stops_at_first_failed_request world_unavailable "Error").
  reflexivity.
Defined.

(** X15. A snapshot without gameweeks is fetched in full and then
    abandoned: nothing is created or written, the [TypeError] of
    [buildHTML] is reported, and the process exits with code 1. *)
Theorem main_without_gameweeks (w : world) (data : Data) :
  fetched w data -> events (bootstrap data) = [] ->
  main w
  = [console_log "📊 Fetching FPL data...";
     fetch "https://fantasy.premierleague.com/api/bootstrap-static/";
     fetch "https://fantasy.premierleague.com/api/fixtures/";
     console_log "✅ Data fetched";
     console_error "TypeError"; process_exit 1].
Proof.
  destruct w as [rb rf tza pe mk wi wd].
  destruct data as [b f]. intros [[sb Hb] [sf Hf]] Hev.
  cbn [bootstrap_static all_fixtures bootstrap fixtures] in *. subst rb rf.
  run_script.
  assert (E : buildHTML tza {| bootstrap := b; fixtures := f |}
              = Throw "TypeError")
    by (unfold buildHTML; cbn [bootstrap fixtures]; now rewrite Hev).
  now rewrite E.
Qed.

Lemma main_without_gameweeks_witness :
  fetched world_without_gameweeks empty_data
  /\ events (bootstrap empty_data) = []
  /\ main world_without_gameweeks
     = [console_log "📊 Fetching FPL data...";
        fetch "https://fantasy.premierleague.com/api/bootstrap-static/";
        fetch "https://fantasy.premierleague.com/api/fixtures/";
        console_log "✅ Data fetched";
        console_error "TypeError"; process_exit 1].
Proof.
  assert (H : fetched world_without_gameweeks empty_data)
    by (split; exists 200; reflexivity).
  split; [exact H|]. split; [reflexivity|].
  apply (main_without_gameweeks world_without_gameweeks empty_data H).
  reflexivity.
Defined.

Ltac not_among H :=
  unfold build_complete in H; simpl in H;
  repeat (destruct H as [H|H]; [discriminate|]); contradiction.

Ltac exit_case :=
  right;
  match goal with
  | |- exists t name, ?l = _ /\ _ =>
      exists (removelast (removelast l)); eexists;
      split; [reflexivity|];
      let H := fresh "H" in
      split; [intros H|intros code H]; not_among H
  end.

Ltac complete_case :=
  left; split;
  [ match goal with
    | |- exists t, ?l = _ => exists (removelast l); reflexivity
    end
  | let H := fresh "H" in intros code H; not_among H ].

(** X16. A run ends in exactly one of two ways: with the completion
    message, having called [process.exit] nowhere, or with the error
    report followed by [process.exit(1)], having printed no completion
    message and called [process.exit] nowhere before. *)
Theorem main_completes_or_exits (w : world) :
  ((exists t, main w = t ++ [build_complete])
   /\ forall code, ~ In (process_exit code) (main w))
  \/ (exists t name,
        main w = t ++ [console_error name; process_exit 1]
        /\ ~ In build_complete t
        /\ forall code, ~ In (process_exit code) t).
Proof.
  destruct w as [rb rf tza pe mk wi wd].
  destruct rb as [|[] sb [b|]]; try (run_script; exit_case).
  destruct rf as [|[] sf [f|]]; try (run_script; exit_case).
  run_script.
  destruct (buildHTML tza {| bootstrap := b; fixtures := f |}) as [v|name];
    [|cbn; exit_case].
  destruct pe, mk, wi, wd; cbn; first [exit_case|complete_case].
Qed.

(** X17. The raw data is written only after the page was written without
    error, and the two files agree: [data.json] holds the fetched payload
    and the page written before it is the one built from that payload. *)
Theorem data_json_follows_page (w : world) (c : file_content) :
  In (writeFileSync "data.json" c) (main w) ->
  write_index_throws w = false
  /\ exists data v t1 t2,
       c = Json data
       /\ fetched w data
       /\ buildHTML (LocalTZA w) data = Normal v
       /\ main w = t1 ++ writeFileSync "public/index.html" (Page v) :: t2
       /\ In (writeFileSync "data.json" c) t2.
Proof.
  destruct w as [rb rf tza pe mk wi wd].
  destruct rb as [|[] sb [b|]];
    try (run_script; intros H; not_among H).
  destruct rf as [|[] sf [f|]];
    try (run_script; intros H; not_among H).
  run_script.
  destruct (buildHTML tza {| bootstrap := b; fixtures := f |}) as [v|name]
    eqn:Eb; [|cbn; intros H; not_among H].
  assert (Hf : fetched
                 {| bootstrap_static := HttpResponse true sb (Some b);
                    all_fixtures := HttpResponse true sf (Some f);
                    LocalTZA := tza; public_exists := pe;
                    mkdir_throws := mk; write_index_throws := wi;
                    write_data_throws := wd |}
                 {| bootstrap := b; fixtures := f |})
    by (split; eexists; reflexivity).
  destruct pe, mk, wi, wd; cbn; intros H; try (not_among H);
    (split; [reflexivity|]);
    exists {| bootstrap := b; fixtures := f |}, v;
    simpl in H;
    repeat (destruct H as [H|H]; [try discriminate|]); try contradiction;
    injection H as <-.
  all: first
    [ eexists (_ :: _ :: _ :: _ :: _ :: []); eexists;
      split; [reflexivity|]; split; [exact Hf|];
      split; [exact Eb|]; split; [cbn; reflexivity|]; simpl; auto
    | eexists (_ :: _ :: _ :: _ :: _ :: _ :: []); eexists;
      split; [reflexivity|]; split; [exact Hf|];
      split; [exact Eb|]; split; [cbn; reflexivity|]; simpl; auto ].
Qed.

Lemma data_json_follows_page_witness :
  In (writeFileSync "data.json" (Json sample_data)) (main sample_world)
  /\ write_index_throws sample_world = false
  /\ exists data v t1 t2,
       Json sample_data = Json data
       /\ fetched sample_world data
       /\ buildHTML (LocalTZA sample_world) data = Normal v
       /\ main sample_world
          = t1 ++ writeFileSync "public/index.html" (Page v) :: t2
       /\ In (writeFileSync "data.json" (Json sample_data)) t2.
Proof.
  assert (H : In (writeFileSync "data.json" (Json sample_data))
                 (main sample_world)).
  { unfold main. cbn. do 8 right. now left. }
  split; [exact H|].
  apply (data_json_follows_page sample_world (Json sample_data) H).
Defined.

(** ** The selector under the snapshot's invariant *)

(** X18. When one gameweek only is flagged [is_next], the selector
    returns it wherever it stands in the list and whatever the other
    flags say. *)
Theorem getCurrentGameweek_the_next_one (events : list Event.t)
    (gw : Event.t) :
  In gw events -> Event.is_next gw = true ->
  (forall e, In e events -> Event.is_next e = true -> e = gw) ->
  getCurrentGameweek events = Some gw.
Proof.
  intros Hin Hnext Huniq. unfold getCurrentGameweek.
  destruct (List.find Event.is_next events) as [g|] eqn:E.
  - apply List.find_some in E as [Hg Hgn]. f_equal. now apply Huniq.
  - pose proof (List.find_none _ _ E gw Hin). congruence.
Qed.

Lemma getCurrentGameweek_the_next_one_witness :
  In gw_next_2 [gw_current_1; gw_next_2]
  /\ Event.is_next gw_next_2 = true
  /\ (forall e, In e [gw_current_1; gw_next_2] ->
                Event.is_next e = true -> e = gw_next_2)
  /\ getCurrentGameweek [gw_current_1; gw_next_2] = Some gw_next_2.
Proof.
  assert (Hin : In gw_next_2 [gw_current_1; gw_next_2]) by (right; now left).
  assert (Hu : forall e, In e [gw_current_1; gw_next_2] ->
                         Event.is_next e = true -> e = gw_next_2).
  { intros e [<-|[<-|[]]] H; [discriminate|reflexivity]. }
  split; [exact Hin|]. split; [reflexivity|]. split; [exact Hu|].
  apply (getCurrentGameweek_the_next_one [gw_current_1; gw_next_2]
           gw_next_2 Hin eq_refl Hu).
Defined.
